(** * Column-group resizing (Magento PageBuilder): a shallow embedding

    Source: [ts/js/content-type/column-group/resizing.ts], class
    [ColumnGroupUtils].

    JavaScript numbers are IEEE 754 binary64 values.  They are modelled by
    the Standard Library's executable specification of binary floats
    ([SpecFloat], precision 53, emax 1024), so every arithmetic step of the
    source rounds here exactly as it does in a JavaScript engine. *)

From Stdlib Require Import ZArith QArith Qabs Lia Lqa Bool.
From Stdlib Require Import Floats.SpecFloat.
From stdpp Require Import base option list functions strings pretty.

Local Open Scope Z_scope.

(** ** JavaScript numbers *)

Module JS.

Definition number := spec_float.

Definition prec : Z := 53.
Definition emax : Z := 1024.

Definition add : number -> number -> number := SFadd prec emax.
Definition sub : number -> number -> number := SFsub prec emax.
Definition mul : number -> number -> number := SFmul prec emax.
Definition div : number -> number -> number := SFdiv prec emax.
Definition neg : number -> number := SFopp.

(** [a < b], [a <= b], [a === b]; [a > b] is [less b a].  Every comparison
    with NaN is false, and [-0 === 0]. *)
Definition less : number -> number -> bool := SFltb.
Definition lessEq : number -> number -> bool := SFleb.
Definition strictEq : number -> number -> bool := SFeqb.

Definition NaN : number := S754_nan.
Definition zero : number := S754_zero false.

(** An integer literal or integer-valued variable as a number. *)
Definition of_Z (z : Z) : number := binary_normalize prec emax z 0 false.

(** The decimal literal [n / 10^d], rounded to the nearest number (ties to
    even): the division of two exactly held integers is correctly rounded. *)
Definition decimal (s : bool) (n : N) (d : nat) : number :=
  match n with
  | N0 => S754_zero s
  | Npos p => div (S754_finite s p 0) (S754_finite false (Z.to_pos (10 ^ Z.of_nat d)) 0)
  end.

(** Truthiness of a number: false for [0], [-0] and [NaN]. *)
Definition truthy (x : number) : bool :=
  match x with
  | S754_zero _ | S754_nan => false
  | _ => true
  end.

(** The texts the source obtains from numbers.  [Fixed s n d] is the text
    of [toFixed(d)]: an optional minus sign, then the integer [n] written
    with its last [d] digits after the decimal point.  [Shortest x] is
    [x.toString()], the shortest decimal that reads back as [x]. *)
Inductive text :=
  | NaNText
  | Fixed (s : bool) (n : N) (d : nat)
  | Shortest (x : number).

Definition toString (x : number) : text := Shortest x.

(** [floor (m * 2^e + 1/2)] for an integer [m]: below, shifting right by
    [k + 1] is the floor of the division by [2^(k+1)]. *)
Definition round_half_up (m : Z) (e : Z) : Z :=
  match e with
  | Zneg k => Z.shiftr (2 * m + Z.shiftl 1 (Zpos k)) (Zpos k + 1)
  | _ => Z.shiftl m e
  end.

(** [Number.prototype.toFixed]: "let n be an integer for which
    [n / 10^d - x] is as close to zero as possible; if there are two such
    n, pick the larger", on the magnitude of [x], with the sign in front.
    From [10^21] upwards (the integer part of [m * 2^e] is at least
    [10^21]) the text is that of [toString]. *)
Definition toFixed (x : number) (d : nat) : text :=
  match x with
  | S754_nan => NaNText
  | S754_infinity _ => Shortest x
  | S754_zero _ => Fixed false 0 d
  | S754_finite s m e =>
      if 1000000000000000000000 <=? Z.shiftl (Zpos m) e then Shortest x
      else Fixed s (Z.to_N (round_half_up (Zpos m * 10 ^ Z.of_nat d) e)) d
  end.

(** [parseFloat] (and [Number], unary minus and [+] applied to a text) on
    the texts above.  The text of [-0] is ["0"]. *)
Definition parseFloat (t : text) : number :=
  match t with
  | NaNText => NaN
  | Fixed s n d => decimal s n d
  | Shortest (S754_zero _) => zero
  | Shortest x => x
  end.

(** [Math.round]: the nearest integer, ties towards +infinity. *)
Definition round (x : number) : number :=
  match x with
  | S754_finite s m e => binary_normalize prec emax (round_half_up (cond_Zopp s (Zpos m)) e) 0 s
  | _ => x
  end.

(** [Math.floor]. *)
Definition floor (x : number) : number :=
  match x with
  | S754_finite s m e => binary_normalize prec emax (Z.shiftl (cond_Zopp s (Zpos m)) e) 0 s
  | _ => x
  end.

End JS.

Import JS.

(** The exact rational value of a finite number (0 for the others). *)
Definition Qvalue (x : number) : Q :=
  match x with
  | S754_finite s m e =>
      let v := match e with
               | Zneg k => Qmake (Zpos m) (2 ^ k)
               | _ => inject_Z (Zpos m * 2 ^ e)
               end in
      if s then Qopp v else v
  | _ => 0%Q
  end.

Definition is_finite (x : number) : bool :=
  match x with
  | S754_finite _ _ _ | S754_zero _ => true
  | _ => false
  end.

(** ** WidthSnapper *)

Definition hundred : number := of_Z 100.
(** The literal [0.1]. *)
Definition tenth : number := decimal false 1 1.

(** [v.toFixed(Math.round(v) !== v ? 8 : 0)] *)
Definition fixedDigits (v : number) : nat :=
  if negb (strictEq (round v) v) then 8%nat else 0%nat.

(** [parseFloat((100 / gridSize * i).toFixed(...))], given [100 / gridSize] *)
Definition percentageOf (unit : number) (i : Z) : number :=
  let v := mul unit (of_Z i) in
  parseFloat (toFixed v (fixedDigits v)).

Definition percentage (gridSize : Z) (i : Z) : number :=
  percentageOf (div hundred (of_Z gridSize)) i.

(** [w > (percentage - 0.1) && w < (percentage + 0.1)] *)
Definition within (w p : number) : bool :=
  less (sub p tenth) w && less w (add p tenth).

(** The loop [for (let i = gridSize; i > 0; i--)] of
    [getAcceptedColumnWidth], entered at [i]. *)
Fixpoint acceptedLoop (gridSize : Z) (i : nat) (w : number) : number :=
  match i with
  | O => zero
  | S i' =>
      let p := percentage gridSize (Z.of_nat i) in
      if within w p then p else acceptedLoop gridSize i' w
  end.

Definition getAcceptedColumnWidth (gridSize : Z) (width : text) : number :=
  acceptedLoop gridSize (Z.to_nat gridSize) (parseFloat width).

Definition getSmallestColumnWidth (gridSize : Z) : number :=
  let v := div hundred (of_Z gridSize) in
  getAcceptedColumnWidth gridSize
    (toFixed (parseFloat (toString v)) (fixedDigits v)).

Definition getRoundedColumnWidth (width : number) : number :=
  parseFloat (toFixed width (fixedDigits width)).


(** ** The column group and its columns *)

(** A column is an object; its identity is all the source compares. *)
Definition Column := nat.

(** [this.columnGroup]: the grid size read by [getGridSize], an integer
    ([parseInt] of the configured text; a text without digits, for which
    [parseInt] is [NaN], is outside this model), and the ordered children
    every column reaches through [column.parent.children()]. *)
Record ColumnGroup := {
  gridSize : Z;
  children : list Column;
}.

(** The columns' data stores.  [widthOf c] is the number [parseFloat] reads
    from the stored width of [c] (the source stores ["<number>%"] and only
    ever reads it back through [parseFloat]); [updates] lists the calls of
    [dataStore.update], oldest first. *)
Record DataStores := {
  widthOf : Column -> number;
  updates : list (Column * number);
}.

Definition getColumnWidth (g : ColumnGroup) (s : DataStores) (column : Column) : number :=
  getAcceptedColumnWidth (gridSize g) (toString (widthOf s column)).

(** [Array.prototype.indexOf]: [-1] when absent. *)
Definition indexOf (column : Column) (l : list Column) : Z :=
  match list_find (λ x, x = column) l with
  | Some (i, _) => Z.of_nat i
  | None => -1
  end.

(** [array[k]] for an integer [k]: [undefined] outside the array. *)
Definition at_index {A} (l : list A) (k : Z) : option A :=
  if k <? 0 then None else l !! Z.to_nat k.

(** [array.slice(start)] *)
Definition slice {A} (start : Z) (l : list A) : list A :=
  let len := Z.of_nat (length l) in
  drop (Z.to_nat (if start <? 0 then Z.max (len + start) 0 else start)) l.

Definition getColumnIndexInGroup (g : ColumnGroup) (column : Column) : Z :=
  indexOf column (children g).

Inductive Direction := Plus1 | Minus1.

(** [parseInt(direction, 10)] on ["+1"] and ["-1"]. *)
Definition parseInt (d : Direction) : Z :=
  match d with Plus1 => 1 | Minus1 => -1 end.

(** [null] is [None]. *)
Definition getAdjacentColumn (g : ColumnGroup) (column : Column) (direction : Direction)
  : option Column :=
  let currentIndex := getColumnIndexInGroup g column in
  at_index (children g) (currentIndex + parseInt direction).

(** [reduce] without an initial value throws on an empty array. *)
Definition getColumnsWidth (g : ColumnGroup) (s : DataStores) : option number :=
  match map (getColumnWidth g s) (children g) with
  | [] => None
  | w :: ws =>
      Some (fold_left (λ widthA widthB, add widthA (if truthy widthB then widthB else zero)) ws w)
  end.

(** ** PositionCalculator *)

(** What the source reads from a column's preview element:
    [offset().left], [parseInt(css("margin-left"), 10)], [outerWidth(true)]. *)
Record Preview := {
  offsetLeft : number;
  marginLeft : number;
  outerWidthWithMargin : number;
}.

Record GroupPositionCache := {
  groupLeft : number;
  groupOuterWidth : number;
}.

Record ColumnWidth := {
  forColumn : string;
  name : string;
  position : number;
  width : number;
}.

Record MaxGhostWidth := {
  ghostLeft : number;
  ghostRight : number;
}.

Definition ten : number := of_Z 10.

(** Dereferencing the [null] neighbour throws: the result is [None]. *)
Definition determineColumnWidths (g : ColumnGroup) (preview : Column -> Preview)
    (column : Column) (groupPosition : GroupPositionCache) : option (list ColumnWidth) :=
  let singleColumnWidth := div (groupOuterWidth groupPosition) (of_Z (gridSize g)) in
  let columnLeft := sub (offsetLeft (preview column)) (marginLeft (preview column)) in
  adjacentColumn ← getAdjacentColumn g column Plus1;
  let adjacentRightPosition :=
    add (offsetLeft (preview adjacentColumn)) (outerWidthWithMargin (preview adjacentColumn)) in
  let len := Z.of_nat (length (children g)) in
  let columnsToRight := len - (getColumnIndexInGroup g column + 1) in
  let leftMaxWidthFromChildren :=
    add (sub (add (groupLeft groupPosition) (groupOuterWidth groupPosition))
             (mul (of_Z columnsToRight) singleColumnWidth)) ten in
  let rightMaxWidthFromChildren :=
    sub (add (groupLeft groupPosition) (mul (of_Z (len - columnsToRight)) singleColumnWidth)) ten in
  let candidate (side : string) (i : Z) (p : number) :=
    {| forColumn := side;
       name := pretty i +:+ "/" +:+ pretty (gridSize g);
       position := p;
       width := getRoundedColumnWidth (mul (div hundred (of_Z (gridSize g))) (of_Z i)) |} in
  let lefts :=
    omap (λ i, let p := round (add columnLeft (mul singleColumnWidth (of_Z i))) in
               if less (round leftMaxWidthFromChildren) p then None
               else Some (candidate "left" i p))
         (reverse (seqZ 1 (gridSize g))) in
  let rights :=
    omap (λ i, let p := floor (sub adjacentRightPosition (mul (of_Z i) singleColumnWidth)) in
               if less p (floor rightMaxWidthFromChildren) then None
               else Some (candidate "right" i p))
         (seqZ 1 (gridSize g - 1)) in
  Some (lefts ++ rights).

(** Reading [.position] of [leftColumns[0]] or of
    [rightColumns[rightColumns.length - 1]] throws when it is [undefined]. *)
Definition determineMaxGhostWidth (columnWidths : list ColumnWidth) : option MaxGhostWidth :=
  let leftColumns := filter (λ w, forColumn w = "left") columnWidths in
  let rightColumns := filter (λ w, forColumn w = "right") columnWidths in
  l ← head leftColumns;
  r ← last rightColumns;
  Some {| ghostLeft := position l; ghostRight := position r |}.

(** ** ShrinkCandidateFinder *)

Inductive Side := Left | Right.

Definition findShrinkableColumnForResize (g : ColumnGroup) (s : DataStores)
    (column : Column) (direction : Side) : option Column :=
  let currentIndex := getColumnIndexInGroup g column in
  let parentChildren := children g in
  let searchArray :=
    match direction with
    | Right => slice (currentIndex + 1) parentChildren
    | Left =>
        slice (Z.of_nat (length parentChildren) - currentIndex)
              (reverse (slice 0 parentChildren))
    end in
  List.find (λ groupColumn,
               less (getSmallestColumnWidth (gridSize g)) (getColumnWidth g s groupColumn))
            searchArray.

(** ** ResizeDecision and ResizeHistory *)

Record ResizeRecord := {
  adjustedColumn : option Column;
  modifyColumnInPair : string;
}.

(** The two arrays of the history object.  They are shared with the caller
    and [Array.prototype.reverse] reverses in place, so the function below
    returns the arrays as it leaves them. *)
Record ResizeHistory := {
  historyLeft : list ResizeRecord;
  historyRight : list ResizeRecord;
}.

(** [[adjustedColumn, modifyColumnInPair, usedHistory]] *)
Record Adjustment := {
  adjusted : option Column;
  modifyInPair : string;
  usedHistory : option string;
}.

Definition determineAdjustedColumn (g : ColumnGroup) (s : DataStores)
    (preview : Column -> Preview) (currentPos : number) (column : Column)
    (history : ResizeHistory) : option (Adjustment * ResizeHistory) :=
  let resizeColumnLeft := sub (offsetLeft (preview column)) (marginLeft (preview column)) in
  let resizeColumnWidth := outerWidthWithMargin (preview column) in
  let resizeHandlePosition := add resizeColumnLeft resizeColumnWidth in
  if lessEq resizeHandlePosition currentPos then
    if (0 <? Z.of_nat (length (historyLeft history))) then
      (* history.left.reverse()[0].adjustedColumn *)
      let left1 := reverse (historyLeft history) in
      r1 ← head left1;
      (* history.left.reverse()[0].modifyColumnInPair *)
      let left2 := reverse left1 in
      r2 ← head left2;
      Some ({| adjusted := adjustedColumn r1;
               modifyInPair := modifyColumnInPair r2;
               usedHistory := Some "left" |},
            {| historyLeft := left2; historyRight := historyRight history |})
    else
      Some ({| adjusted := findShrinkableColumnForResize g s column Right;
               modifyInPair := "left";
               usedHistory := None |}, history)
  else
    if lessEq (getColumnWidth g s column) (getSmallestColumnWidth (gridSize g)) then
      let adjustedColumn := findShrinkableColumnForResize g s column Left in
      Some ({| adjusted := adjustedColumn;
               modifyInPair := match adjustedColumn with Some _ => "right" | None => "left" end;
               usedHistory := None |}, history)
    else if (0 <? Z.of_nat (length (historyRight history))) then
      let right1 := reverse (historyRight history) in
      r1 ← head right1;
      let right2 := reverse right1 in
      r2 ← head right2;
      Some ({| adjusted := adjustedColumn r1;
               modifyInPair := modifyColumnInPair r2;
               usedHistory := Some "right" |},
            {| historyLeft := historyLeft history; historyRight := right2 |})
    else
      Some ({| adjusted := getAdjacentColumn g column Plus1;
               modifyInPair := "left";
               usedHistory := None |}, history).

(** ** ResizeApplier *)

(** [column.dataStore.update(parseFloat(width.toString()) + "%", "width")] *)
Definition updateColumnWidth (column : Column) (width : number) (s : DataStores) : DataStores :=
  let stored := parseFloat (toString width) in
  {| widthOf := <[column := stored]> (widthOf s);
     updates := updates s ++ [(column, stored)] |}.

(** [difference] is a text of [toFixed], never empty, hence truthy: the
    test [difference && shrinkableColumn] is the test of [shrinkableColumn]. *)
Definition resizeColumn (g : ColumnGroup) (column : Column) (width : number)
    (shrinkableColumn : option Column) (s : DataStores) : DataStores :=
  let current := getColumnWidth g s column in
  let difference := toFixed (sub (parseFloat (toString width)) current) 8 in
  if strictEq current (parseFloat (toString width))
     || less (parseFloat (toString width)) (getSmallestColumnWidth (gridSize g))
  then s
  else
    let '(allowedToShrink, s1) :=
      match shrinkableColumn with
      | Some shrinkable =>
          let currentShrinkable := getColumnWidth g s shrinkable in
          let shrinkableSize :=
            getAcceptedColumnWidth (gridSize g)
              (toString (add currentShrinkable (neg (parseFloat difference)))) in
          if strictEq currentShrinkable (parseFloat (toString shrinkableSize))
             || less (parseFloat (toString shrinkableSize)) (getSmallestColumnWidth (gridSize g))
          then (false, s)
          else (true, updateColumnWidth shrinkable shrinkableSize s)
      | None => (true, s)
      end in
    if allowedToShrink then updateColumnWidth column width s1 else s1.

(** ** The grid table

    The percentages [getAcceptedColumnWidth] meets, in the order it meets
    them: [i = gridSize] first, [i = 1] last. *)

Fixpoint tableFrom (unit : number) (i : nat) : list number :=
  match i with
  | O => []
  | S i' => percentageOf unit (Z.of_nat i) :: tableFrom unit i'
  end.

Definition table (gridSize : Z) : list number :=
  tableFrom (div hundred (of_Z gridSize)) (Z.to_nat gridSize).

(** The first percentage of [ps] that [w] is within 0.1 of, else 0. *)
Fixpoint firstWithin (w : number) (ps : list number) : number :=
  match ps with
  | [] => zero
  | p :: ps' => if within w p then p else firstWithin w ps'
  end.

(** A table is stable when each percentage is within 0.1 of itself, 0 is
    not above any [p - 0.1], and each percentage is at most [p - 0.1] for
    the percentage [p] met just before it. *)
Fixpoint stable (ps : list number) : bool :=
  match ps with
  | [] => true
  | p :: ps' =>
      let lo := sub p tenth in
      less lo p && less p (add p tenth) && lessEq zero lo && lessEq lo p
      && match ps' with [] => true | q :: _ => lessEq q lo end
      && stable ps'
  end.

(** Grid sizes [1 .. n] all have a stable table. *)
Definition stableUpTo (n : nat) : bool :=
  forallb (λ k, stable (table (Z.of_nat k))) (seq 1 n).

(** ** Row totals

    The exact (rational) sum of the widths stored by the columns of the
    row, and the tolerance of the row invariant. *)

Definition sumValues (W : Column -> number) (l : list Column) : Q :=
  foldr (λ c acc, Qvalue (W c) + acc)%Q 0%Q l.

Definition rowWidth (g : ColumnGroup) (s : DataStores) : Q :=
  sumValues (widthOf s) (children g).

Definition tolerance : Q := 1 # 1000000.

Definition sumsTo100 (g : ColumnGroup) (s : DataStores) : Prop :=
  (Qabs (rowWidth g s - 100) <= tolerance)%Q.

(** A stored width is snapped when [getColumnWidth] reads it back as it is. *)
Definition snapped (gridSize : Z) (w : number) : Prop :=
  getAcceptedColumnWidth gridSize (toString w) = w.

#[global] Instance number_eq_dec : EqDecision number.
Proof. solve_decision. Defined.

(** The number of grid units of a snapped width: [k] for the percentage
    met at [i = k], 0 for the width 0. *)
Fixpoint unitsIn (ps : list number) (x : number) : Z :=
  match ps with
  | [] => 0
  | p :: ps' => if decide (x = p) then Z.of_nat (length ps) else unitsIn ps' x
  end.

(** The grid units of a row. *)
Definition rowUnits (ps : list number) (W : Column -> number) (l : list Column) : Z :=
  foldr (λ c acc, unitsIn ps (W c) + acc) 0 l.

(** The donor's new width when [resizeColumn] writes, for a column that
    reads [a], a donor that reads [b] and the target [w]: the body of
    [resizeColumn] on the widths alone, [ps] being the grid table and
    [smallest] the smallest column width. *)
Definition resizeOutcome (ps : list number) (smallest a b w : number) : option number :=
  let target := parseFloat (toString w) in
  let difference := toFixed (sub target a) 8 in
  if strictEq a target || less target smallest then None
  else
    let shrinkableSize :=
      firstWithin (parseFloat (toString (add b (neg (parseFloat difference))))) ps in
    if strictEq b (parseFloat (toString shrinkableSize))
       || less (parseFloat (toString shrinkableSize)) smallest
    then None
    else Some shrinkableSize.

(** Each percentage of the table is within [10^-8] of its grid fraction. *)
Definition valuesOk (gridSize : Z) (ps : list number) : bool :=
  forallb (λ p, Qle_bool
                  (Qabs (Qvalue p - 100 / inject_Z gridSize * inject_Z (unitsIn ps p)))
                  (1 # 100000000))
          ps.

(** [p - 0.1], [p] and [p + 0.1], and the scan of [firstWithin] over them. *)
Definition window (p : number) : number * number * number :=
  (sub p tenth, p, add p tenth).

Fixpoint firstWindow (w : number) (ws : list (number * number * number)) : number :=
  match ws with
  | [] => zero
  | (lo, p, hi) :: ws' => if less lo w && less w hi then p else firstWindow w ws'
  end.

(** Whenever [resizeColumn] writes, for snapped widths, the column and the
    donor together keep their number of grid units: [resizeOutcome] on
    every column width [a], target [w] and donor width [b] of the grid. *)
Definition pairsOk (ps : list number) (smallest : number) : bool :=
  let grid := zero :: ps in
  let ws := map window ps in
  forallb (λ a, forallb (λ w,
    let target := parseFloat (toString w) in
    if strictEq a target || less target smallest then true
    else
      let delta := neg (parseFloat (toFixed (sub target a) 8)) in
      forallb (λ b,
        let size := firstWindow (parseFloat (toString (add b delta))) ws in
        if strictEq b (parseFloat (toString size))
           || less (parseFloat (toString size)) smallest
        then true
        else unitsIn ps w + unitsIn ps size =? unitsIn ps a + unitsIn ps b)
      grid) grid) grid.

Definition gridOk (gridSize : Z) : bool :=
  let ps := table gridSize in
  stable ps && valuesOk gridSize ps && pairsOk ps (getSmallestColumnWidth gridSize).

Definition gridsOkUpTo (n : nat) : bool :=
  forallb (λ k, gridOk (Z.of_nat k)) (seq 1 n).

(** ** The handle position and sample rows *)

(** [resizeHandlePosition] of [determineAdjustedColumn]. *)
Definition handle (preview : Column -> Preview) (column : Column) : number :=
  add (sub (offsetLeft (preview column)) (marginLeft (preview column)))
      (outerWidthWithMargin (preview column)).

(** Two columns on a grid of 12, each storing 50. *)
Definition group12 : ColumnGroup := {| gridSize := 12; children := [0%nat; 1%nat] |}.
Definition halves : DataStores := {| widthOf := λ _, of_Z 50; updates := [] |}.

(** 58.33333333, the width of seven twelfths. *)
Definition seven_twelfths : number := decimal false 5833333333 8.

(** Three columns on a grid of 12: a quarter, a half and a quarter. *)
Definition group3 : ColumnGroup := {| gridSize := 12; children := [0%nat; 1%nat; 2%nat] |}.
Definition quarters : DataStores :=
  {| widthOf := λ c, match c with 1%nat => of_Z 50 | _ => of_Z 25 end; updates := [] |}.

Definition candidate (side : string) (p : Z) : ColumnWidth :=
  {| forColumn := side; name := "1/12"; position := of_Z p; width := of_Z 50 |}.

(** A column whose element starts at [l] pixels and is [w] pixels wide. *)
Definition previewAt (l w : Z) : Preview :=
  {| offsetLeft := of_Z l; marginLeft := zero; outerWidthWithMargin := of_Z w |}.

(** A history of the left direction with two records, the older one first. *)
Definition twoDecisions : ResizeHistory :=
  {| historyLeft := [ {| adjustedColumn := Some 1%nat; modifyColumnInPair := "right" |};
                      {| adjustedColumn := Some 2%nat; modifyColumnInPair := "left" |} ];
     historyRight := [] |}.

(** ** Further operations of [ColumnGroupUtils] *)

(** [comparator(num1, num2, threshold)] *)
Definition comparator (num1 num2 threshold : number) : bool :=
  less (sub num2 (div threshold (of_Z 2))) num1
  && less num1 (add num2 (div threshold (of_Z 2))).

(** [calculateGhostWidth]; [positionLeft column] is what the source reads
    as [column.preview.element.position().left]. *)
Definition calculateGhostWidth (g : ColumnGroup) (positionLeft : Column -> number)
    (groupPosition : GroupPositionCache) (currentPos : number) (column : Column)
    (modifyColumnInPair : string) (maxGhostWidth : MaxGhostWidth) : number :=
  let ghostWidth := sub currentPos (groupLeft groupPosition) in
  if decide (modifyColumnInPair = "left") then
    let singleColumnWidth :=
      add (positionLeft column) (div (groupOuterWidth groupPosition) (of_Z (gridSize g))) in
    let ghostWidth :=
      if lessEq ghostWidth singleColumnWidth then singleColumnWidth else ghostWidth in
    if lessEq (ghostLeft maxGhostWidth) currentPos
    then sub (ghostLeft maxGhostWidth) (groupLeft groupPosition)
    else ghostWidth
  else if decide (modifyColumnInPair = "right") then
    if lessEq currentPos (ghostRight maxGhostWidth)
    then sub (ghostRight maxGhostWidth) (groupLeft groupPosition)
    else ghostWidth
  else ghostWidth.

(** The test of both shrink searches:
    [getColumnWidth(c) > getSmallestColumnWidth()]. *)
Definition shrinkable (g : ColumnGroup) (s : DataStores) (c : Column) : bool :=
  less (getSmallestColumnWidth (gridSize g)) (getColumnWidth g s c).

(** For a grid size the text [getSmallestColumnWidth] snaps and the
    rounded width of one grid unit both read as the percentage of
    [i = 1], which is above 0. *)
Definition smallestOk (gridSize : Z) : bool :=
  let unit := div hundred (of_Z gridSize) in
  let one := percentageOf unit 1 in
  bool_decide (parseFloat (toFixed (parseFloat (toString unit)) (fixedDigits unit)) = one)
  && bool_decide (getRoundedColumnWidth unit = one)
  && less zero one.

Definition smallestOkUpTo (n : nat) : bool :=
  forallb (λ k, smallestOk (Z.of_nat k)) (seq 1 n).

(** A candidate of [determineColumnWidths] for the grid index [i]. *)
Definition candidateAt (g : ColumnGroup) (side : string) (i : Z) (cand : ColumnWidth) : Prop :=
  forColumn cand = side
  ∧ name cand = pretty i +:+ "/" +:+ pretty (gridSize g)
  ∧ width cand = percentage (gridSize g) i.

(** Two columns of 600 pixels each in a group of 1200 pixels. *)
Definition twoColumns (c : Column) : Preview := previewAt (Z.of_nat c * 600) 600.
Definition group1200 : GroupPositionCache :=
  {| groupLeft := zero; groupOuterWidth := of_Z 1200 |}.

(** The history at the start of a gesture. *)
Definition emptyHistory : ResizeHistory := {| historyLeft := []; historyRight := [] |}.

(** Three columns of 400 pixels each. *)
Definition threeColumns (c : Column) : Preview := previewAt (Z.of_nat c * 400) 400.

(** * The PageBuilder WYSIWYG form element

    Source: [js/form/element/wysiwyg.js], the extension of the UI
    component [Magento_Ui/js/form/element/wysiwyg].  The component is an
    object of observables and plain properties; its methods and the
    listeners it registers run one at a time (JavaScript is single
    threaded), so each is a function on the state.  What the component
    asks of its collaborators (the PageBuilder constructor, the event bus,
    the DOM observer, jQuery, the timers of underscore) is recorded as it
    is asked: calls in [effects], callbacks handed to [_.delay] and
    [_.defer] in [timers], to be run later. *)

Module Wysiwyg.

(** Calls made to collaborators. *)
Inductive Effect :=
  | NewPageBuilder            (* new PageBuilder(this.wysiwygConfigData(), this.initialValue) *)
  | EventsOn (event : string) (* events.on('stage:' + id + ':' + event, ...) *)
  | WhenDone                  (* jQuery.when(renderDeferred, fullScreenDeferred).done(...) *)
  | Async                     (* $.async({component, selector}, this.disableDomObserver) *)
  | DisableNode               (* domObserver.disableNode(node) *)
  | Trigger (id : option nat) (* events.trigger('stage:' + this.pageBuilder.id + ':toggleFullscreen', {}) *)
  | ModalCss (v : string).    (* this.modal.css({transform: v, transition: v}) *)

#[global] Instance Effect_eq_dec : EqDecision Effect.
Proof. solve_decision. Defined.

(** Callbacks waiting in a timer. *)
Inductive Timer :=
  | HideStage   (* _.delay(..., 185): transitionOut(false); visiblePageBuilder(false) *)
  | AnimateIn.  (* _.defer(...): transition(true) *)

#[global] Instance Timer_eq_dec : EqDecision Timer.
Proof. solve_decision. Defined.

Record Component := {
  transition : bool;
  transitionOut : bool;
  visiblePageBuilder : bool;
  isComponentInitialized : bool;
  loading : bool;
  (** the truth of [wysiwygConfigData()['pagebuilder_button']] *)
  pagebuilderButton : bool;
  (** [false], or the PageBuilder object, known by its [id] *)
  pageBuilder : option nat;
  isWithinModal : bool;
  (** [false], or the jQuery object of the modal ([true] here) *)
  modal : bool;
  value : string;
  (** the variables of [initPageBuilderListeners]: whether the listeners
      exist, the two deferreds (resolved or not) and [rendered] *)
  listening : bool;
  renderDeferred : bool;
  fullScreenDeferred : bool;
  rendered : bool;
  effects : list Effect;
  timers : list Timer;
}.

(** The [defaults] of the component, with the configuration it is given. *)
Definition defaults (button : bool) (initialValue : string) : Component :=
  {| transition := false; transitionOut := false; visiblePageBuilder := false;
     isComponentInitialized := false; loading := false; pagebuilderButton := button;
     pageBuilder := None; isWithinModal := false; modal := false; value := initialValue;
     listening := false; renderDeferred := false; fullScreenDeferred := false;
     rendered := false; effects := []; timers := [] |}.

Section Setters.

Context (c : Component).

Definition setTransition (b : bool) : Component :=
  {| transition := b; transitionOut := transitionOut c;
     visiblePageBuilder := visiblePageBuilder c;
     isComponentInitialized := isComponentInitialized c; loading := loading c;
     pagebuilderButton := pagebuilderButton c; pageBuilder := pageBuilder c;
     isWithinModal := isWithinModal c; modal := modal c; value := value c;
     listening := listening c; renderDeferred := renderDeferred c;
     fullScreenDeferred := fullScreenDeferred c; rendered := rendered c;
     effects := effects c; timers := timers c |}.

Definition setTransitionOut (b : bool) : Component :=
  {| transition := transition c; transitionOut := b;
     visiblePageBuilder := visiblePageBuilder c;
     isComponentInitialized := isComponentInitialized c; loading := loading c;
     pagebuilderButton := pagebuilderButton c; pageBuilder := pageBuilder c;
     isWithinModal := isWithinModal c; modal := modal c; value := value c;
     listening := listening c; renderDeferred := renderDeferred c;
     fullScreenDeferred := fullScreenDeferred c; rendered := rendered c;
     effects := effects c; timers := timers c |}.

Definition setVisiblePageBuilder (b : bool) : Component :=
  {| transition := transition c; transitionOut := transitionOut c;
     visiblePageBuilder := b;
     isComponentInitialized := isComponentInitialized c; loading := loading c;
     pagebuilderButton := pagebuilderButton c; pageBuilder := pageBuilder c;
     isWithinModal := isWithinModal c; modal := modal c; value := value c;
     listening := listening c; renderDeferred := renderDeferred c;
     fullScreenDeferred := fullScreenDeferred c; rendered := rendered c;
     effects := effects c; timers := timers c |}.

Definition setIsComponentInitialized (b : bool) : Component :=
  {| transition := transition c; transitionOut := transitionOut c;
     visiblePageBuilder := visiblePageBuilder c;
     isComponentInitialized := b; loading := loading c;
     pagebuilderButton := pagebuilderButton c; pageBuilder := pageBuilder c;
     isWithinModal := isWithinModal c; modal := modal c; value := value c;
     listening := listening c; renderDeferred := renderDeferred c;
     fullScreenDeferred := fullScreenDeferred c; rendered := rendered c;
     effects := effects c; timers := timers c |}.

Definition setLoading (b : bool) : Component :=
  {| transition := transition c; transitionOut := transitionOut c;
     visiblePageBuilder := visiblePageBuilder c;
     isComponentInitialized := isComponentInitialized c; loading := b;
     pagebuilderButton := pagebuilderButton c; pageBuilder := pageBuilder c;
     isWithinModal := isWithinModal c; modal := modal c; value := value c;
     listening := listening c; renderDeferred := renderDeferred c;
     fullScreenDeferred := fullScreenDeferred c; rendered := rendered c;
     effects := effects c; timers := timers c |}.

Definition setPageBuilder (p : option nat) : Component :=
  {| transition := transition c; transitionOut := transitionOut c;
     visiblePageBuilder := visiblePageBuilder c;
     isComponentInitialized := isComponentInitialized c; loading := loading c;
     pagebuilderButton := pagebuilderButton c; pageBuilder := p;
     isWithinModal := isWithinModal c; modal := modal c; value := value c;
     listening := listening c; renderDeferred := renderDeferred c;
     fullScreenDeferred := fullScreenDeferred c; rendered := rendered c;
     effects := effects c; timers := timers c |}.

Definition setModal (within m : bool) : Component :=
  {| transition := transition c; transitionOut := transitionOut c;
     visiblePageBuilder := visiblePageBuilder c;
     isComponentInitialized := isComponentInitialized c; loading := loading c;
     pagebuilderButton := pagebuilderButton c; pageBuilder := pageBuilder c;
     isWithinModal := within; modal := m; value := value c;
     listening := listening c; renderDeferred := renderDeferred c;
     fullScreenDeferred := fullScreenDeferred c; rendered := rendered c;
     effects := effects c; timers := timers c |}.

Definition setValue (v : string) : Component :=
  {| transition := transition c; transitionOut := transitionOut c;
     visiblePageBuilder := visiblePageBuilder c;
     isComponentInitialized := isComponentInitialized c; loading := loading c;
     pagebuilderButton := pagebuilderButton c; pageBuilder := pageBuilder c;
     isWithinModal := isWithinModal c; modal := modal c; value := v;
     listening := listening c; renderDeferred := renderDeferred c;
     fullScreenDeferred := fullScreenDeferred c; rendered := rendered c;
     effects := effects c; timers := timers c |}.

(** The variables of [initPageBuilderListeners]. *)
Definition setListeners (l render fullScreen r : bool) : Component :=
  {| transition := transition c; transitionOut := transitionOut c;
     visiblePageBuilder := visiblePageBuilder c;
     isComponentInitialized := isComponentInitialized c; loading := loading c;
     pagebuilderButton := pagebuilderButton c; pageBuilder := pageBuilder c;
     isWithinModal := isWithinModal c; modal := modal c; value := value c;
     listening := l; renderDeferred := render;
     fullScreenDeferred := fullScreen; rendered := r;
     effects := effects c; timers := timers c |}.

(** One more call to a collaborator. *)
Definition call (e : Effect) : Component :=
  {| transition := transition c; transitionOut := transitionOut c;
     visiblePageBuilder := visiblePageBuilder c;
     isComponentInitialized := isComponentInitialized c; loading := loading c;
     pagebuilderButton := pagebuilderButton c; pageBuilder := pageBuilder c;
     isWithinModal := isWithinModal c; modal := modal c; value := value c;
     listening := listening c; renderDeferred := renderDeferred c;
     fullScreenDeferred := fullScreenDeferred c; rendered := rendered c;
     effects := effects c ++ [e]; timers := timers c |}.

Definition setTimers (ts : list Timer) : Component :=
  {| transition := transition c; transitionOut := transitionOut c;
     visiblePageBuilder := visiblePageBuilder c;
     isComponentInitialized := isComponentInitialized c; loading := loading c;
     pagebuilderButton := pagebuilderButton c; pageBuilder := pageBuilder c;
     isWithinModal := isWithinModal c; modal := modal c; value := value c;
     listening := listening c; renderDeferred := renderDeferred c;
     fullScreenDeferred := fullScreenDeferred c; rendered := rendered c;
     effects := effects c; timers := ts |}.

End Setters.

(** [_.delay] and [_.defer]: the callback waits. *)
Definition later (t : Timer) (c : Component) : Component :=
  setTimers c (timers c ++ [t]).

(** [initPageBuilderListeners]: four listeners on the event bus and the
    callback on the two deferreds. *)
Definition initPageBuilderListeners (c : Component) : Component :=
  let c := setListeners c true false false false in
  let c := call c (EventsOn "readyAfter") in
  let c := call c (EventsOn "renderAfter") in
  let c := call c (EventsOn "masterFormatRenderAfter") in
  let c := call c (EventsOn "fullScreenModeChangeAfter") in
  call c WhenDone.

(** [initPageBuilder]; [id] is the id of the object [new PageBuilder]
    returns, should it be called. *)
Definition initPageBuilder (id : nat) (c : Component) : Component :=
  let c :=
    if negb (isComponentInitialized c) then
      let c := setLoading c true in
      let c := setPageBuilder (call c NewPageBuilder) (Some id) in
      let c := initPageBuilderListeners c in
      let c := setIsComponentInitialized c true in
      call c Async
    else c in
  if negb (pagebuilderButton c) then setVisiblePageBuilder c true else c.

(** [initialize], after [this._super()]. *)
Definition initialize (id : nat) (c : Component) : Component :=
  if negb (pagebuilderButton c) then initPageBuilder id c else c.

Definition disableDomObserver (c : Component) : Component := call c DisableNode.

Definition toggleFullScreen (c : Component) : Component := call c (Trigger (pageBuilder c)).

(** [pageBuilderEditButtonClick]; [modalInnerWrap] is the number of
    elements [parents('.modal-inner-wrap')] finds. *)
Definition pageBuilderEditButtonClick (modalInnerWrap : nat) (id : nat) (c : Component)
  : Component :=
  let c := setTransition c false in
  let within := Nat.eqb modalInnerWrap 1%nat in
  let c := setModal c within (if within then true else modal c) in
  let c := if negb (isComponentInitialized c) then disableDomObserver c else c in
  let c := initPageBuilder id c in
  toggleFullScreen c.

(** Resolving a deferred: the callback of [jQuery.when(...).done] runs
    when the second of the two is resolved, and it defers
    [transition(true)]. *)
Definition resolve (render fullScreen : bool) (c : Component) : Component :=
  let before := renderDeferred c && fullScreenDeferred c in
  let c := setListeners c (listening c) (renderDeferred c || render)
             (fullScreenDeferred c || fullScreen) (rendered c) in
  if negb before && (renderDeferred c && fullScreenDeferred c) then later AnimateIn c else c.

(** The listeners. *)
Definition onReadyAfter (c : Component) : Component := setLoading c false.

Definition onRenderAfter (c : Component) : Component :=
  let c := resolve true false c in
  setListeners c (listening c) (renderDeferred c) (fullScreenDeferred c) true.

Definition onMasterFormatRenderAfter (v : string) (c : Component) : Component :=
  setValue c v.

Definition onFullScreenModeChangeAfter (fullScreen : bool) (c : Component) : Component :=
  if negb fullScreen && pagebuilderButton c then
    let c := if isWithinModal c && modal c then call c (ModalCss "") else c in
    let c := setTransitionOut c true in
    let c := setTransition c false in
    later HideStage c
  else if fullScreen && pagebuilderButton c then
    let c := setVisiblePageBuilder c true in
    let c := if isWithinModal c && modal c then call c (ModalCss "none") else c in
    let c := resolve false true c in
    if rendered c then later AnimateIn c else c
  else c.

(** A timer runs out. *)
Definition run (t : Timer) (c : Component) : Component :=
  match t with
  | HideStage => setVisiblePageBuilder (setTransitionOut c false) false
  | AnimateIn => setTransition c true
  end.

(** What can happen to the component: it is initialized, its button is
    clicked, an event of its stage arrives (heard only once the listeners
    exist), the stage element appears (the callback of [$.async]), or the
    [n]th waiting timer runs out.  The other methods are called from these
    only. *)
Inductive Action :=
  | Initialize (id : nat)
  | ButtonClick (modalInnerWrap : nat) (id : nat)
  | ReadyAfter
  | RenderAfter
  | MasterFormatRenderAfter (v : string)
  | FullScreenModeChangeAfter (fullScreen : bool)
  | StageFound
  | TimeOut (n : nat).

Definition heard (handler : Component -> Component) (c : Component) : Component :=
  if listening c then handler c else c.

Definition step (c : Component) (a : Action) : Component :=
  match a with
  | Initialize id => initialize id c
  | ButtonClick n id => pageBuilderEditButtonClick n id c
  | ReadyAfter => heard onReadyAfter c
  | RenderAfter => heard onRenderAfter c
  | MasterFormatRenderAfter v => heard (onMasterFormatRenderAfter v) c
  | FullScreenModeChangeAfter fullScreen => heard (onFullScreenModeChangeAfter fullScreen) c
  | StageFound => if isComponentInitialized c then disableDomObserver c else c
  | TimeOut n =>
      match timers c !! n with
      | Some t => run t (setTimers c (delete n (timers c)))
      | None => c
      end
  end.

Definition after (actions : list Action) (c : Component) : Component :=
  fold_left step actions c.

(** How often the PageBuilder constructor was called. *)
Definition constructed (c : Component) : nat :=
  length (filter (λ e, e = NewPageBuilder) (effects c)).

(** The toggle events sent so far. *)
Definition triggered (c : Component) : list (option nat) :=
  omap (λ e, match e with Trigger id => Some id | _ => None end) (effects c).

(** The click on the button. *)
Definition isClick (a : Action) : bool :=
  match a with
  | ButtonClick _ _ => true
  | _ => false
  end.

(** ** Invariants of the runs *)

(** Constructed exactly when initialized, and then once. *)
Definition built (c : Component) : Prop :=
  if isComponentInitialized c
  then constructed c = 1%nat ∧ is_Some (pageBuilder c) ∧ listening c = true
  else constructed c = 0%nat ∧ pageBuilder c = None ∧ listening c = false.

(** The toggle events all name the stage that was constructed. *)
Definition addressed (c : Component) : Prop :=
  if isComponentInitialized c
  then ∃ id, pageBuilder c = Some id ∧ Forall (λ o, o = Some id) (triggered c)
  else triggered c = [].

(** The state of a component without the button, once initialized. *)
Definition shown (id : nat) (c : Component) : Prop :=
  pagebuilderButton c = false ∧ isComponentInitialized c = true
  ∧ pageBuilder c = Some id ∧ visiblePageBuilder c = true
  ∧ transition c = false ∧ transitionOut c = false
  ∧ fullScreenDeferred c = false ∧ timers c = [].


End Wysiwyg.

(** * Properties *)

(** ** Comparisons of numbers *)

Section Comparison.

Lemma compare_normalised_l (x y : number) :
  SFcompare (parseFloat (toString x)) y = SFcompare x y.
Proof. destruct x as [sx|sx| |sx mx ex]; destruct y; reflexivity. Qed.

Lemma compare_normalised_r (x y : number) :
  SFcompare x (parseFloat (toString y)) = SFcompare x y.
Proof. destruct y as [sy|sy| |sy my ey]; destruct x; reflexivity. Qed.

Lemma strictEq_normalised_r x y : strictEq x (parseFloat (toString y)) = strictEq x y.
Proof. unfold strictEq, SFeqb. now rewrite compare_normalised_r. Qed.

Lemma less_normalised_l x y : less (parseFloat (toString x)) y = less x y.
Proof. unfold less, SFltb. now rewrite compare_normalised_l. Qed.

Lemma compare_swap (x y : number) :
  SFcompare y x = CompOpp <$> SFcompare x y.
Proof.
  destruct x as [sx|sx| |sx mx ex], y as [sy|sy| |sy my ey]; simpl;
    try reflexivity; try (destruct sx; reflexivity); try (destruct sy; reflexivity);
    try (destruct sx, sy; reflexivity).
  destruct sx, sy; simpl; try reflexivity; f_equal;
    rewrite (Z.compare_antisym ey ex); destruct (ey ?= ex) eqn:E; simpl; try reflexivity;
    rewrite (ZC4 my mx); now destruct (PosDef.Pos.compare_cont Eq mx my).
Qed.

Lemma lessEq_not_greater x y : lessEq x y = true -> less y x = false.
Proof.
  unfold lessEq, less, SFleb, SFltb. rewrite (compare_swap x y).
  destruct (SFcompare x y) as [[]|]; simpl; congruence.
Qed.

End Comparison.

(** ** ResizeApplier *)

(** C6.  A target equal to the column's current (accepted) width, or below
    the smallest column width, leaves the stores as they were: no call of
    [dataStore.update] is made and no width changes. *)
Theorem resizeColumn_same_or_small_target g column width shrinkable s :
  strictEq (getColumnWidth g s column) width = true
  ∨ less width (getSmallestColumnWidth (gridSize g)) = true ->
  resizeColumn g column width shrinkable s = s.
Proof.
  intros H. unfold resizeColumn.
  rewrite strictEq_normalised_r, less_normalised_l.
  destruct H as [-> | ->]; [reflexivity | now rewrite orb_true_r].
Qed.

Lemma resizeColumn_same_or_small_target_witness :
  resizeColumn group12 0%nat (of_Z 50) (Some 1%nat) halves = halves.
Proof.
  apply (resizeColumn_same_or_small_target group12 0%nat (of_Z 50) (Some 1%nat) halves).
  left. vm_compute. reflexivity.
Defined.

(** C5.  With a donor, when the snapped compensating width equals the
    donor's current width or is below the smallest column width, neither
    column is written.  The delta is the difference the source computes,
    [(width - current).toFixed(8)]. *)
Theorem resizeColumn_aborts_both g column width donor s :
  let delta := parseFloat (toFixed (sub (parseFloat (toString width)) (getColumnWidth g s column)) 8) in
  let currentDonor := getColumnWidth g s donor in
  let snapped :=
    getAcceptedColumnWidth (gridSize g) (toString (add currentDonor (neg delta))) in
  strictEq currentDonor snapped = true
  ∨ less snapped (getSmallestColumnWidth (gridSize g)) = true ->
  resizeColumn g column width (Some donor) s = s.
Proof.
  intros delta currentDonor snapped H. unfold resizeColumn.
  destruct (_ || _); [reflexivity|].
  fold delta currentDonor snapped.
  rewrite strictEq_normalised_r, less_normalised_l.
  destruct H as [-> | ->]; [reflexivity | now rewrite orb_true_r].
Qed.

Lemma resizeColumn_aborts_both_witness :
  resizeColumn group12 0%nat (of_Z 47) (Some 1%nat) halves = halves.
Proof.
  apply (resizeColumn_aborts_both group12 0%nat (of_Z 47) 1%nat halves).
  right. vm_compute. reflexivity.
Defined.

(** C3, as the code has it.  Without a donor the dragged column alone is
    written, with the target, unless the target equals its current width
    or is below the smallest column width; then nothing is written. *)
Theorem resizeColumn_without_donor g column width s :
  resizeColumn g column width None s =
    if strictEq (getColumnWidth g s column) width
       || less width (getSmallestColumnWidth (gridSize g))
    then s else updateColumnWidth column width s.
Proof.
  unfold resizeColumn. rewrite strictEq_normalised_r, less_normalised_l.
  now destruct (_ || _).
Qed.

(** C3 as stated fails: a target of seven twelfths without a donor is
    written to the column. *)
Lemma resizeColumn_without_donor_writes :
  updates (resizeColumn group12 0%nat seven_twelfths None halves) <> updates halves.
Proof. vm_compute. discriminate. Qed.

(** C4.  If every column of the row stores at least the smallest column
    width, then after any call no column of the row stores a width below
    it. *)
Theorem resizeColumn_keeps_smallest g column width shrinkable s :
  (forall c, c ∈ children g ->
     lessEq (getSmallestColumnWidth (gridSize g)) (widthOf s c) = true) ->
  forall c, c ∈ children g ->
    less (widthOf (resizeColumn g column width shrinkable s) c)
       (getSmallestColumnWidth (gridSize g)) = false.
Proof.
  intros Hrow c Hc. pose proof (lessEq_not_greater _ _ (Hrow c Hc)) as Hold.
  unfold resizeColumn.
  destruct (strictEq _ _ || less _ _) eqn:Hguard; [exact Hold|].
  apply orb_false_elim in Hguard as [_ Hw].
  assert (Hcol : forall s', less (widthOf s' c) (getSmallestColumnWidth (gridSize g)) = false ->
            less (widthOf (updateColumnWidth column width s') c)
               (getSmallestColumnWidth (gridSize g)) = false).
  { intros s' Hs'. simpl. unfold insert, fn_insert.
    destruct (decide (column = c)); [exact Hw | exact Hs']. }
  destruct shrinkable as [donor|]; [|now apply Hcol].
  destruct (strictEq _ _ || less _ _) eqn:Hdonor; [exact Hold|].
  apply orb_false_elim in Hdonor as [_ Hd].
  apply Hcol. simpl. unfold insert, fn_insert.
  destruct (decide (donor = c)); [exact Hd | exact Hold].
Qed.

Lemma resizeColumn_keeps_smallest_witness :
  less (widthOf (resizeColumn group12 0%nat seven_twelfths (Some 1%nat) halves) 1%nat)
     (getSmallestColumnWidth 12) = false.
Proof.
  apply (resizeColumn_keeps_smallest group12 0%nat seven_twelfths (Some 1%nat) halves).
  - intros c Hc. vm_compute. reflexivity.
  - unfold group12, children. rewrite !elem_of_cons. auto.
Defined.

(** Two halves on a grid of 12, the first column resized to four twelfths
    with the second as donor: 33.33333333 and 66.66666667 are written. *)
Example resizeColumn_halves_to_thirds :
  updates (resizeColumn group12 0%nat (decimal false 3333333333 8) (Some 1%nat) halves)
  = [(1%nat, decimal false 6666666667 8); (0%nat, decimal false 3333333333 8)].
Proof. vm_compute. reflexivity. Qed.

(** A quarter, a half and a quarter: a target of 5 for the middle column
    is below the smallest column width and nothing is written. *)
Example resizeColumn_below_minimum :
  resizeColumn group3 1%nat (of_Z 5) (Some 0%nat) quarters = quarters.
Proof.
  unfold resizeColumn.
  replace (strictEq _ _ || less _ _) with true by (vm_compute; reflexivity).
  reflexivity.
Qed.

(** ** WidthSnapper: the smallest column width *)

(** C9, as the code has it.  For a grid of 12 the smallest column width is
    the number 8.33333333; for a grid of 3 it is the number 33.33333333
    ([100 / 3] is not whole, so it is kept to 8 decimals). *)
Theorem getSmallestColumnWidth_12_and_3 :
  getSmallestColumnWidth 12 = decimal false 833333333 8
  ∧ getSmallestColumnWidth 3 = decimal false 3333333333 8.
Proof. split; vm_compute; reflexivity. Qed.

(** C9 as stated fails for a grid of 3: the result is not the integer 33. *)
Lemma getSmallestColumnWidth_3_not_33 :
  strictEq (getSmallestColumnWidth 3) (of_Z 33) = false.
Proof. vm_compute. reflexivity. Qed.

(** ** PositionCalculator *)

Section MaxGhostWidth.

Lemma filter_none (P : ColumnWidth -> Prop) `{!forall x, Decision (P x)} l :
  (forall x, x ∈ l -> ¬ P x) -> filter P l = [].
Proof.
  induction l as [|a l IH]; intros Hno; [reflexivity|].
  rewrite filter_cons_False by (apply Hno; left).
  apply IH. intros x Hx. apply Hno. now right.
Qed.

Lemma head_filter_first (P : ColumnWidth -> Prop) `{!forall x, Decision (P x)} pre x post :
  P x -> (forall y, y ∈ pre -> ¬ P y) ->
  head (filter P (pre ++ x :: post)) = Some x.
Proof.
  intros Hx Hpre. rewrite filter_app, (filter_none P pre Hpre).
  now rewrite filter_cons_True.
Qed.

Lemma last_filter_last (P : ColumnWidth -> Prop) `{!forall x, Decision (P x)} pre x post :
  P x -> (forall y, y ∈ post -> ¬ P y) ->
  last (filter P (pre ++ x :: post)) = Some x.
Proof.
  intros Hx Hpost. rewrite filter_app, filter_cons_True by exact Hx.
  rewrite (filter_none P post Hpost). apply last_snoc.
Qed.

(** C7.  The result pairs the position of the first candidate for "left"
    with the position of the last candidate for "right"; with no candidate
    for "left", or none for "right", the call throws. *)
Theorem determineMaxGhostWidth_first_left_last_right (candidates : list ColumnWidth) :
  (forall pre l post pre' r post',
     candidates = pre ++ l :: post ->
     forColumn l = "left" -> (forall x, x ∈ pre -> forColumn x ≠ "left") ->
     candidates = pre' ++ r :: post' ->
     forColumn r = "right" -> (forall x, x ∈ post' -> forColumn x ≠ "right") ->
     determineMaxGhostWidth candidates
     = Some {| ghostLeft := position l; ghostRight := position r |})
  ∧ ((forall x, x ∈ candidates -> forColumn x ≠ "left")
     ∨ (forall x, x ∈ candidates -> forColumn x ≠ "right") ->
     determineMaxGhostWidth candidates = None).
Proof.
  split.
  - intros pre l post pre' r post' E Hl Hpre E' Hr Hpost.
    unfold determineMaxGhostWidth.
    rewrite E at 1. rewrite (head_filter_first _ pre l post Hl Hpre).
    rewrite E'. rewrite (last_filter_last _ pre' r post' Hr Hpost).
    reflexivity.
  - intros [H|H]; unfold determineMaxGhostWidth.
    + now rewrite (filter_none _ candidates H).
    + rewrite (filter_none (λ w, forColumn w = "right") candidates H).
      now destruct (head _).
Qed.

End MaxGhostWidth.

Lemma determineMaxGhostWidth_first_left_last_right_witness :
  determineMaxGhostWidth
    [candidate "right" 10; candidate "left" 20; candidate "left" 30; candidate "right" 40]
  = Some {| ghostLeft := of_Z 20; ghostRight := of_Z 40 |}.
Proof.
  refine (proj1 (determineMaxGhostWidth_first_left_last_right _)
            [candidate "right" 10] (candidate "left" 20)
            [candidate "left" 30; candidate "right" 40]
            [candidate "right" 10; candidate "left" 20; candidate "left" 30]
            (candidate "right" 40) [] eq_refl eq_refl _ eq_refl eq_refl _).
  - intros x Hx. apply list_elem_of_singleton in Hx. subst x. discriminate.
  - intros x Hx. now apply elem_of_nil in Hx.
Defined.

Lemma at_index_None {A} (l : list A) k :
  at_index l k = None <-> k < 0 ∨ Z.of_nat (length l) <= k.
Proof.
  unfold at_index. destruct (Z.ltb_spec k 0) as [Hk|Hk].
  - split; [left; lia | reflexivity].
  - rewrite lookup_ge_None. lia.
Qed.

(** C10.  [getAdjacentColumn] is [null] exactly when the column's index
    plus the offset is outside the children; [determineColumnWidths]
    returns exactly when the column has a right neighbour, and on the last
    column of the row it throws. *)
Theorem getAdjacentColumn_null_iff g preview groupPosition column direction :
  let k := getColumnIndexInGroup g column + parseInt direction in
  (getAdjacentColumn g column direction = None
     <-> k < 0 ∨ Z.of_nat (length (children g)) <= k)
  ∧ (determineColumnWidths g preview column groupPosition = None
     <-> getAdjacentColumn g column Plus1 = None)
  ∧ (getColumnIndexInGroup g column = Z.of_nat (length (children g)) - 1 ->
     determineColumnWidths g preview column groupPosition = None).
Proof.
  intros k. split; [apply at_index_None|].
  assert (Hiff : determineColumnWidths g preview column groupPosition = None
                 <-> getAdjacentColumn g column Plus1 = None).
  { unfold determineColumnWidths.
    destruct (getAdjacentColumn g column Plus1); cbn [mbind option_bind];
      split; intros H; (reflexivity || discriminate). }
  split; [exact Hiff|].
  intros Hlast. apply Hiff. unfold getAdjacentColumn. apply at_index_None.
  right. rewrite Hlast. simpl. lia.
Qed.

Lemma getAdjacentColumn_null_iff_witness :
  determineColumnWidths group12 (λ c, previewAt (Z.of_nat c * 600) 600) 1%nat
    {| groupLeft := zero; groupOuterWidth := of_Z 1200 |} = None.
Proof.
  refine (proj2 (proj2 (getAdjacentColumn_null_iff group12 _ _ 1%nat Plus1)) _).
  reflexivity.
Defined.

(** ** ResizeDecision *)

(** What the code does when it reuses the history of the left direction:
    the first [reverse()] puts the newest record in front, the second one
    puts the oldest record back in front, so [adjustedColumn] is read from
    the newest record and [modifyColumnInPair] from the oldest. *)
Lemma determineAdjustedColumn_left_history g s preview currentPos column history
    oldest rest newest :
  lessEq (handle preview column) currentPos = true ->
  historyLeft history = oldest :: rest ->
  last (historyLeft history) = Some newest ->
  determineAdjustedColumn g s preview currentPos column history
  = Some ({| adjusted := adjustedColumn newest;
             modifyInPair := modifyColumnInPair oldest;
             usedHistory := Some "left" |}, history).
Proof.
  intros Hpos Hleft Hlast. unfold determineAdjustedColumn. unfold handle in Hpos.
  rewrite Hpos. destruct history as [hl hr]. cbn [historyLeft historyRight] in *.
  assert (Hlen : (0 <? Z.of_nat (length hl)) = true)
    by (subst hl; apply Z.ltb_lt; cbn [length]; lia).
  rewrite Hlen, reverse_involutive, head_reverse, Hlast. subst hl. reflexivity.
Qed.

Lemma determineAdjustedColumn_right_history g s preview currentPos column history
    oldest rest newest :
  lessEq (handle preview column) currentPos = false ->
  lessEq (getColumnWidth g s column) (getSmallestColumnWidth (gridSize g)) = false ->
  historyRight history = oldest :: rest ->
  last (historyRight history) = Some newest ->
  determineAdjustedColumn g s preview currentPos column history
  = Some ({| adjusted := adjustedColumn newest;
             modifyInPair := modifyColumnInPair oldest;
             usedHistory := Some "right" |}, history).
Proof.
  intros Hpos Hmin Hright Hlast. unfold determineAdjustedColumn. unfold handle in Hpos.
  rewrite Hpos, Hmin. destruct history as [hl hr]. cbn [historyLeft historyRight] in *.
  assert (Hlen : (0 <? Z.of_nat (length hr)) = true)
    by (subst hr; apply Z.ltb_lt; cbn [length]; lia).
  rewrite Hlen, reverse_involutive, head_reverse, Hlast. subst hr. reflexivity.
Qed.

(** With a single record in [history.left] both fields come from it. *)
Lemma determineAdjustedColumn_single_record g s preview currentPos column record right :
  lessEq (handle preview column) currentPos = true ->
  determineAdjustedColumn g s preview currentPos column
    {| historyLeft := [record]; historyRight := right |}
  = Some ({| adjusted := adjustedColumn record;
             modifyInPair := modifyColumnInPair record;
             usedHistory := Some "left" |},
          {| historyLeft := [record]; historyRight := right |}).
Proof.
  intros Hpos.
  now apply (determineAdjustedColumn_left_history g s preview currentPos column _ record [] record).
Qed.

(** C1 on the code.  With two records in [history.left], the older one
    [{1, "right"}] and the newer one [{2, "left"}], and the pointer right
    of the handle, the result takes the column of the newer record and the
    side of the older record. *)
Theorem determineAdjustedColumn_mixes_records :
  determineAdjustedColumn group12 halves (λ c, previewAt (Z.of_nat c * 600) 600)
    (of_Z 700) 0%nat twoDecisions
  = Some ({| adjusted := Some 2%nat; modifyInPair := "right"; usedHistory := Some "left" |},
          twoDecisions).
Proof. vm_compute. reflexivity. Qed.

(** ** WidthSnapper: snapping twice *)

Section Snapping.

Lemma lessEq_trans x y z : lessEq x y = true -> lessEq y z = true -> lessEq x z = true.
Proof.
  unfold lessEq, SFleb.
  destruct x as [[]|[]| |[] mx ex], y as [[]|[]| |[] my ey], z as [[]|[]| |[] mz ez];
    simpl; try reflexivity; try discriminate;
    change (PosDef.Pos.compare_cont Eq) with Pos.compare;
    destruct (Z.compare_spec ex ey); try discriminate;
    destruct (Z.compare_spec ey ez); try discriminate;
    destruct (Z.compare_spec ex ez); try lia; try reflexivity;
    subst; simpl;
    destruct (Pos.compare_spec mx my); try discriminate;
    destruct (Pos.compare_spec my mz); try discriminate;
    destruct (Pos.compare_spec mx mz); try lia; reflexivity.
Qed.

Lemma within_normalised w p : within (parseFloat (toString w)) p = within w p.
Proof.
  unfold within, less, SFltb.
  now rewrite compare_normalised_l, compare_normalised_r.
Qed.

Lemma acceptedLoop_table g i w :
  acceptedLoop g i w = firstWithin w (tableFrom (div hundred (of_Z g)) i).
Proof.
  induction i as [|i IH]; [reflexivity|].
  cbn [acceptedLoop tableFrom firstWithin]. unfold percentage. now rewrite IH.
Qed.

Lemma getAcceptedColumnWidth_table g t :
  getAcceptedColumnWidth g t = firstWithin (parseFloat t) (table g).
Proof. apply acceptedLoop_table. Qed.

Lemma firstWithin_normalised w ps :
  firstWithin (parseFloat (toString w)) ps = firstWithin w ps.
Proof.
  induction ps as [|p ps IH]; [reflexivity|].
  cbn [firstWithin]. now rewrite within_normalised, IH.
Qed.

Lemma firstWithin_cases w ps : firstWithin w ps = zero ∨ firstWithin w ps ∈ ps.
Proof.
  induction ps as [|p ps IH]; [now left|].
  cbn [firstWithin]. destruct (within w p).
  - right. left.
  - destruct IH as [IH|IH]; [now left | right; now right].
Qed.

Lemma stable_cons p ps :
  stable (p :: ps) = true ->
  within p p = true ∧ lessEq zero (sub p tenth) = true ∧ lessEq (sub p tenth) p = true
  ∧ (forall q, head ps = Some q -> lessEq q (sub p tenth) = true) ∧ stable ps = true.
Proof.
  cbn [stable]. cbv zeta. rewrite !andb_true_iff. intros [[[[[H0 H1] H2] H3] H4] H5].
  repeat split; try assumption.
  - unfold within. now rewrite H0, H1.
  - intros q Hq. destruct ps; [discriminate|]. now injection Hq as ->.
Qed.

Lemma stable_below p ps :
  stable (p :: ps) = true -> forall q, q ∈ ps -> lessEq q (sub p tenth) = true.
Proof.
  revert p. induction ps as [|a ps IH]; intros p Hst q Hq.
  - now apply elem_of_nil in Hq.
  - destruct (stable_cons _ _ Hst) as (_ & _ & _ & Hhead & Hrest).
    apply elem_of_cons in Hq as [->|Hq]; [now apply Hhead|].
    destruct (stable_cons _ _ Hrest) as (_ & _ & Hlo & _ & _).
    apply lessEq_trans with (sub a tenth); [now apply IH|].
    apply lessEq_trans with a; [exact Hlo | now apply Hhead].
Qed.

Lemma stable_zero ps : stable ps = true -> firstWithin zero ps = zero.
Proof.
  induction ps as [|p ps IH]; [reflexivity|]. intros Hst.
  destruct (stable_cons _ _ Hst) as (_ & H0 & _ & _ & Hrest).
  cbn [firstWithin]. unfold within. rewrite (lessEq_not_greater _ _ H0). now apply IH.
Qed.

Lemma stable_self ps : stable ps = true -> forall p, p ∈ ps -> firstWithin p ps = p.
Proof.
  induction ps as [|a ps IH]; intros Hst p Hp; [now apply elem_of_nil in Hp|].
  destruct (stable_cons _ _ Hst) as (Ha & _ & _ & _ & Hrest).
  cbn [firstWithin]. destruct (within p a) eqn:Hw.
  - apply elem_of_cons in Hp as [->|Hp]; [reflexivity|].
    unfold within in Hw. now rewrite (lessEq_not_greater _ _ (stable_below _ _ Hst p Hp)) in Hw.
  - apply elem_of_cons in Hp as [->|Hp]; [congruence | now apply IH].
Qed.

Lemma firstWithin_stable ps w :
  stable ps = true ->
  firstWithin (parseFloat (toString (firstWithin w ps))) ps = firstWithin w ps.
Proof.
  intros Hst. rewrite firstWithin_normalised.
  destruct (firstWithin_cases w ps) as [-> | Hin]; [now apply stable_zero|].
  now apply stable_self.
Qed.

Lemma stableUpTo_stable n g :
  stableUpTo n = true -> 1 <= g <= Z.of_nat n -> stable (table g) = true.
Proof.
  intros Hall Hg. unfold stableUpTo in Hall. rewrite forallb_forall in Hall.
  specialize (Hall (Z.to_nat g)). rewrite Z2Nat.id in Hall by lia.
  apply Hall, in_seq. lia.
Qed.

Lemma table_nonpositive g : g <= 0 -> table g = [].
Proof. intros Hg. unfold table. now replace (Z.to_nat g) with O by lia. Qed.

End Snapping.

Lemma grids_stable : stableUpTo 100 = true.
Proof. vm_cast_no_check (eq_refl true). Qed.

(** The tables of the grid sizes 999 and 1000: the first is stable, the
    second is not. *)
Example table_999_stable : stable (table 999) = true ∧ stable (table 1000) = false.
Proof. split; [vm_cast_no_check (eq_refl true) | vm_cast_no_check (eq_refl false)]. Qed.

(** C8, as the code has it.  For every grid size up to 100, and for every
    grid size whose table is stable (its percentages lie at least 0.1
    apart and at least 0.1 above 0, as the code computes [p - 0.1]),
    snapping the (stringified) snapped width gives the snapped width
    again, for every width. *)
Theorem getAcceptedColumnWidth_idempotent (gridSize : Z) (width : text) :
  gridSize <= 100 ∨ stable (table gridSize) = true ->
  getAcceptedColumnWidth gridSize (toString (getAcceptedColumnWidth gridSize width))
  = getAcceptedColumnWidth gridSize width.
Proof.
  intros Hg. rewrite !getAcceptedColumnWidth_table.
  apply firstWithin_stable. destruct Hg as [Hg|Hg]; [|exact Hg].
  destruct (Z.le_gt_cases gridSize 0) as [Hle|Hgt].
  - now rewrite (table_nonpositive _ Hle).
  - apply (stableUpTo_stable 100 _ grids_stable). lia.
Qed.

Lemma getAcceptedColumnWidth_idempotent_witness :
  getAcceptedColumnWidth 12
    (toString (getAcceptedColumnWidth 12 (toString (decimal false 49995 3))))
  = getAcceptedColumnWidth 12 (toString (decimal false 49995 3)).
Proof.
  apply (getAcceptedColumnWidth_idempotent 12 (toString (decimal false 49995 3))).
  left. lia.
Defined.

(** On a grid of 1000 the width 0.19 snaps to 0.2, and 0.2 snaps to 0.3:
    in floating point [0.3 - 0.1] is below 0.2, so the scan, which starts
    from the largest percentage, already stops at 0.3 for the input 0.2. *)
Lemma snap_019_grid_1000 :
  getAcceptedColumnWidth 1000 (toString (decimal false 19 2)) = decimal false 2 1
  ∧ getAcceptedColumnWidth 1000 (toString (decimal false 2 1)) = decimal false 3 1.
Proof.
  split; [vm_cast_no_check (eq_refl (decimal false 2 1))
         | vm_cast_no_check (eq_refl (decimal false 3 1))].
Qed.

(** C8 as stated fails for a grid of 1000 and the width 0.19. *)
Lemma getAcceptedColumnWidth_not_idempotent_1000 :
  getAcceptedColumnWidth 1000
    (toString (getAcceptedColumnWidth 1000 (toString (decimal false 19 2))))
  <> getAcceptedColumnWidth 1000 (toString (decimal false 19 2)).
Proof.
  destruct snap_019_grid_1000 as [E1 E2]. rewrite E1, E2.
  vm_compute. discriminate.
Qed.

(** ** The row total under [resizeColumn] *)

Section RowTotal.

Local Open Scope Q_scope.

Ltac quotient_of_hundred H :=
  match type of H with
  | context [100 / ?d] =>
      let v := eval vm_compute in (Qred (100 / d)) in
      let E := fresh "E" in
      assert (E : 100 / d == v) by reflexivity;
      rewrite E in H; clear E
  end.

Ltac grid_cases G :=
  let H := fresh "HG" in
  assert (H : (G = 1 ∨ G = 2 ∨ G = 3 ∨ G = 4 ∨ G = 5 ∨ G = 6 ∨ G = 7 ∨ G = 8 ∨ G = 9
               ∨ G = 10 ∨ G = 11 ∨ G = 12 ∨ G = 13 ∨ G = 14 ∨ G = 15 ∨ G = 16)%Z) by lia;
  destruct H as [->|[->|[->|[->|[->|[->|[->|[->|[->|[->|[->|[->|[->|[->|[->| ->]]]]]]]]]]]]]]].

Lemma total_fixes_units (G K : Z) (total : Q) :
  (1 <= G <= 16)%Z -> (0 <= K)%Z ->
  Qabs (total - 100 / inject_Z G * inject_Z K) <= (1 # 100000000) * inject_Z K ->
  Qabs (total - 100) <= tolerance ->
  K = G.
Proof.
  intros HG HK HB HS.
  apply Qabs_Qle_condition in HB. apply Qabs_Qle_condition in HS.
  unfold tolerance in HS.
  destruct (Z.eq_dec K G) as [|Hne]; [assumption|exfalso].
  assert (Hcases : (K <= G + -1)%Z ∨ (G + 1 <= K)%Z) by lia.
  rewrite !Zle_Qle in Hcases. rewrite Zle_Qle in HK.
  rewrite !inject_Z_plus in Hcases.
  remember (inject_Z K) as k eqn:Ek. clear Ek Hne.
  grid_cases G; unfold inject_Z in *; quotient_of_hundred HB; destruct Hcases; lra.
Qed.

Lemma units_fix_total (G : Z) (total : Q) :
  (1 <= G <= 16)%Z ->
  Qabs (total - 100 / inject_Z G * inject_Z G) <= (1 # 100000000) * inject_Z G ->
  Qabs (total - 100) <= tolerance.
Proof.
  intros HG HB. apply Qabs_Qle_condition in HB. apply Qabs_Qle_condition.
  unfold tolerance.
  grid_cases G; unfold inject_Z in *; quotient_of_hundred HB; lra.
Qed.

Lemma unitsIn_nonneg ps x : (0 <= unitsIn ps x)%Z.
Proof.
  induction ps as [|p ps IH]; cbn [unitsIn]; [lia|].
  destruct (decide (x = p)); lia.
Qed.

Lemma unitsIn_positive ps x : x ∈ ps -> (1 <= unitsIn ps x)%Z.
Proof.
  induction ps as [|p ps IH]; intros Hx; [now apply elem_of_nil in Hx|].
  cbn [unitsIn]. destruct (decide (x = p)); [cbn [length]; lia|].
  apply elem_of_cons in Hx as [?|Hx]; [contradiction | now apply IH].
Qed.

Lemma unitsIn_absent ps x : x ∉ ps -> unitsIn ps x = 0%Z.
Proof.
  induction ps as [|p ps IH]; intros Hx; [reflexivity|].
  apply not_elem_of_cons in Hx as [Hne Hx].
  cbn [unitsIn]. destruct (decide (x = p)); [contradiction | now apply IH].
Qed.

Lemma stable_not_zero ps p : stable ps = true -> p ∈ ps -> forall sg, p <> S754_zero sg.
Proof.
  induction ps as [|a ps IH]; intros Hst Hp sg ->; [now apply elem_of_nil in Hp|].
  destruct (stable_cons _ _ Hst) as (_ & H0 & _ & _ & Hrest).
  apply elem_of_cons in Hp as [<-|Hp]; [|exact (IH Hrest Hp sg eq_refl)].
  destruct sg; vm_compute in H0; discriminate.
Qed.

Lemma stable_normal ps p : stable ps = true -> p ∈ ps -> parseFloat (toString p) = p.
Proof.
  intros Hst Hp. pose proof (stable_not_zero ps p Hst Hp) as Hz.
  destruct p as [sg| | |]; [now destruct (Hz sg) | reflexivity..].
Qed.

Lemma stable_snapped G x :
  stable (table G) = true -> x = zero ∨ x ∈ table G -> snapped G x.
Proof.
  intros Hst Hx. unfold snapped. rewrite getAcceptedColumnWidth_table.
  cbn [toString parseFloat]. change (firstWithin (parseFloat (toString x)) (table G) = x).
  rewrite firstWithin_normalised.
  destruct Hx as [->|Hx]; [now apply stable_zero | now apply stable_self].
Qed.

Lemma snapped_grid G x : snapped G x -> x = zero ∨ x ∈ table G.
Proof.
  unfold snapped. rewrite getAcceptedColumnWidth_table. intros <-.
  apply firstWithin_cases.
Qed.

Lemma valuesOk_bound G ps p :
  valuesOk G ps = true -> p ∈ ps ->
  Qabs (Qvalue p - 100 / inject_Z G * inject_Z (unitsIn ps p)) <= 1 # 100000000.
Proof.
  unfold valuesOk. rewrite forallb_forall. intros Hall Hp.
  apply Qle_bool_iff, Hall, list_elem_of_In, Hp.
Qed.

Lemma sumValues_units G ps W l :
  stable ps = true -> valuesOk G ps = true ->
  (forall c, c ∈ l -> W c = zero ∨ W c ∈ ps) ->
  Qabs (sumValues W l - 100 / inject_Z G * inject_Z (rowUnits ps W l))
  <= (1 # 100000000) * inject_Z (rowUnits ps W l).
Proof.
  intros Hst Hval. pose proof (fun p => valuesOk_bound G ps p Hval) as Hbound.
  revert Hbound. generalize (100 / inject_Z G). intros u Hbound.
  induction l as [|c l IH]; intros Hgrid.
  - apply Qabs_Qle_condition. cbn [sumValues rowUnits foldr]. unfold inject_Z. lra.
  - assert (IHl := IH (fun x Hx => Hgrid x (list_elem_of_further _ _ _ Hx))).
    cbn [sumValues rowUnits foldr]. fold (sumValues W l) (rowUnits ps W l).
    rewrite inject_Z_plus.
    apply Qabs_Qle_condition in IHl. apply Qabs_Qle_condition.
    destruct (Hgrid c (list_elem_of_here _ _)) as [Hc|Hc].
    + rewrite Hc, unitsIn_absent
        by (intros Hin; exact (stable_not_zero ps zero Hst Hin false eq_refl)).
      change (inject_Z 0) with 0. change (Qvalue zero) with 0. lra.
    + pose proof (Hbound (W c) Hc) as Hb. apply Qabs_Qle_condition in Hb.
      pose proof (unitsIn_positive ps (W c) Hc) as Hpos.
      rewrite Zle_Qle in Hpos. change (inject_Z 1) with 1 in Hpos.
      lra.
Qed.

End RowTotal.

Section ResizeTotal.

Lemma rowUnits_nonneg ps W l : 0 <= rowUnits ps W l.
Proof.
  induction l as [|c l IH]; cbn [rowUnits foldr]; [lia|].
  fold (rowUnits ps W l). pose proof (unitsIn_nonneg ps (W c)). lia.
Qed.

Lemma rowUnits_insert_absent ps (W : Column -> number) l c v :
  c ∉ l -> rowUnits ps (<[c:=v]> W) l = rowUnits ps W l.
Proof.
  induction l as [|x l IH]; intros Hc; [reflexivity|].
  apply not_elem_of_cons in Hc as [Hne Hc].
  cbn [rowUnits foldr]. fold (rowUnits ps (<[c:=v]> W) l) (rowUnits ps W l).
  now rewrite IH, fn_lookup_insert_ne.
Qed.

Lemma rowUnits_insert ps (W : Column -> number) l c v :
  NoDup l -> c ∈ l ->
  rowUnits ps (<[c:=v]> W) l = rowUnits ps W l - unitsIn ps (W c) + unitsIn ps v.
Proof.
  induction l as [|x l IH]; intros Hnd Hc; [now apply elem_of_nil in Hc|].
  apply NoDup_cons in Hnd as [Hx Hnd].
  cbn [rowUnits foldr]. fold (rowUnits ps (<[c:=v]> W) l) (rowUnits ps W l).
  destruct (decide (c = x)) as [->|Hne].
  - rewrite fn_lookup_insert, (rowUnits_insert_absent _ _ _ _ _ Hx). lia.
  - apply elem_of_cons in Hc as [?|Hc]; [contradiction|].
    rewrite fn_lookup_insert_ne, IH by assumption. lia.
Qed.

Lemma resizeColumn_outcome g column width donor s :
  resizeColumn g column width (Some donor) s =
    match resizeOutcome (table (gridSize g)) (getSmallestColumnWidth (gridSize g))
            (getColumnWidth g s column) (getColumnWidth g s donor) width with
    | None => s
    | Some size => updateColumnWidth column width (updateColumnWidth donor size s)
    end.
Proof.
  unfold resizeColumn, resizeOutcome.
  destruct (strictEq _ _ || less _ _); [reflexivity|].
  rewrite getAcceptedColumnWidth_table.
  now destruct (strictEq _ _ || less _ _).
Qed.

Lemma resizeOutcome_grid ps smallest a b w size :
  resizeOutcome ps smallest a b w = Some size -> size = zero ∨ size ∈ ps.
Proof.
  unfold resizeOutcome. destruct (strictEq _ _ || less _ _); [discriminate|].
  destruct (strictEq _ _ || less _ _); [discriminate|].
  intros [= <-]. apply firstWithin_cases.
Qed.

Lemma firstWindow_table w ps : firstWindow w (map window ps) = firstWithin w ps.
Proof.
  induction ps as [|p ps IH]; [reflexivity|].
  cbn [map window firstWindow firstWithin]. unfold within. now rewrite IH.
Qed.

Lemma pairsOk_units ps smallest a b w size :
  pairsOk ps smallest = true ->
  a = zero ∨ a ∈ ps -> b = zero ∨ b ∈ ps -> w = zero ∨ w ∈ ps ->
  resizeOutcome ps smallest a b w = Some size ->
  unitsIn ps w + unitsIn ps size = unitsIn ps a + unitsIn ps b.
Proof.
  unfold pairsOk. cbv zeta. rewrite forallb_forall. intros Hall Ha Hb Hw Hout.
  rewrite <- elem_of_cons, list_elem_of_In in Ha, Hb, Hw.
  specialize (Hall a Ha). rewrite forallb_forall in Hall.
  specialize (Hall w Hw).
  unfold resizeOutcome in Hout.
  destruct (strictEq a _ || less _ smallest); [discriminate|].
  rewrite forallb_forall in Hall. specialize (Hall b Hb).
  rewrite firstWindow_table in Hall.
  destruct (strictEq b _ || less _ smallest); [discriminate|].
  injection Hout as <-. now apply Z.eqb_eq.
Qed.

Lemma gridsOkUpTo_gridOk n G :
  gridsOkUpTo n = true -> 1 <= G <= Z.of_nat n -> gridOk G = true.
Proof.
  intros Hall HG. unfold gridsOkUpTo in Hall. rewrite forallb_forall in Hall.
  specialize (Hall (Z.to_nat G)). rewrite Z2Nat.id in Hall by lia.
  apply Hall, in_seq. lia.
Qed.

End ResizeTotal.

Lemma grids_ok : gridsOkUpTo 16 = true.
Proof. vm_cast_no_check (eq_refl true). Qed.




(** The other hypotheses of the theorem are needed as well.  With the
    column as its own donor the column is written twice and ends seven
    twelfths wide next to a half. *)
Example resizeColumn_own_donor_breaks_total :
  ¬ sumsTo100 group12 (resizeColumn group12 0%nat seven_twelfths (Some 0%nat) halves).
Proof. unfold sumsTo100. vm_compute. intros H. now apply H. Qed.

(** A target of 58.25 is not snapped: it is stored as it is, next to the
    donor's 41.66666667. *)
Example resizeColumn_unsnapped_target_breaks_total :
  ¬ sumsTo100 group12
      (resizeColumn group12 0%nat (decimal false 5825 2) (Some 1%nat) halves).
Proof. unfold sumsTo100. vm_compute. intros H. now apply H. Qed.

(** The committed resize of the witness: 25 and 50 become 33.33333333 and
    41.66666667. *)
Example resizeColumn_quarters :
  updates (resizeColumn group3 0%nat (decimal false 3333333333 8) (Some 1%nat) quarters)
  = [(1%nat, decimal false 4166666667 8); (0%nat, decimal false 3333333333 8)].
Proof. vm_compute. reflexivity. Qed.

(** * Further properties *)

(** ** Positions in the row *)

Section Positions.

Lemma indexOf_range (c : Column) l : -1 <= indexOf c l < Z.of_nat (length l).
Proof.
  unfold indexOf. destruct (list_find _ l) as [[i x]|] eqn:E; [|lia].
  apply list_find_Some in E as (Hi & _ & _). apply lookup_lt_Some in Hi. lia.
Qed.

Lemma indexOf_absent (c : Column) l : indexOf c l = -1 <-> c ∉ l.
Proof.
  unfold indexOf. destruct (list_find _ l) as [[i x]|] eqn:E.
  - apply list_find_Some in E as (Hi & -> & _).
    split; [lia|]. intros Hc. destruct Hc. eapply list_elem_of_lookup_2, Hi.
  - split; [|reflexivity]. intros _ Hc.
    rewrite list_find_None, Forall_forall in E. now apply (E c).
Qed.

Lemma indexOf_first (c : Column) l (i : nat) :
  indexOf c l = Z.of_nat i <->
  l !! i = Some c ∧ forall j, (j < i)%nat -> l !! j ≠ Some c.
Proof.
  unfold indexOf. destruct (list_find _ l) as [[k x]|] eqn:E.
  - apply list_find_Some in E as (Hk & -> & Hmin). split.
    + intros Hi. assert (k = i) by lia. subst k. split; [assumption|].
      intros j Hj Hc. now apply (Hmin j c).
    + intros [Hi Hfirst]. f_equal.
      destruct (Nat.lt_trichotomy k i) as [Hlt|[->|Hgt]]; [|reflexivity|].
      * now destruct (Hfirst k Hlt).
      * now destruct (Hmin i c Hi Hgt).
  - split; [lia|]. intros [Hi _].
    rewrite list_find_None, Forall_forall in E.
    destruct (E c); [eapply list_elem_of_lookup_2, Hi | reflexivity].
Qed.

Lemma indexOf_NoDup (c : Column) l (i : nat) :
  NoDup l -> l !! i = Some c -> indexOf c l = Z.of_nat i.
Proof.
  intros Hnd Hi. apply indexOf_first. split; [assumption|].
  intros j Hj Hc. pose proof (NoDup_lookup l i j c Hnd Hi Hc). lia.
Qed.

Lemma at_index_nat {A} (l : list A) (i : nat) : at_index l (Z.of_nat i) = l !! i.
Proof.
  unfold at_index. destruct (Z.ltb_spec (Z.of_nat i) 0); [lia|].
  now rewrite Nat2Z.id.
Qed.

End Positions.

(** X1.  In a row without duplicates, the right neighbour of the column at
    position [i] is the column at position [i + 1], and the left neighbour
    of that one is the column again. *)
Theorem getAdjacentColumn_there_and_back g (i : nat) c d :
  NoDup (children g) ->
  children g !! i = Some c -> children g !! S i = Some d ->
  getAdjacentColumn g c Plus1 = Some d ∧ getAdjacentColumn g d Minus1 = Some c.
Proof.
  intros Hnd Hc Hd. unfold getAdjacentColumn, getColumnIndexInGroup.
  rewrite (indexOf_NoDup c _ i Hnd Hc), (indexOf_NoDup d _ (S i) Hnd Hd).
  cbn [parseInt]. split.
  - replace (Z.of_nat i + 1) with (Z.of_nat (S i)) by lia. now rewrite at_index_nat.
  - replace (Z.of_nat (S i) + -1) with (Z.of_nat i) by lia. now rewrite at_index_nat.
Qed.

Lemma getAdjacentColumn_there_and_back_witness :
  getAdjacentColumn group3 1%nat Plus1 = Some 2%nat
  ∧ getAdjacentColumn group3 2%nat Minus1 = Some 1%nat.
Proof.
  apply (getAdjacentColumn_there_and_back group3 1 1%nat 2%nat); try reflexivity.
  cbn. repeat constructor; rewrite ?elem_of_cons, ?elem_of_nil; lia.
Defined.

(** ** ShrinkCandidateFinder *)

Section Find.

Context {A : Type} (P : A -> bool).

Lemma find_first (l : list A) d :
  List.find P l = Some d <->
  exists k : nat, l !! k = Some d ∧ P d = true
    ∧ forall (j : nat) x, (j < k)%nat -> l !! j = Some x -> P x = false.
Proof.
  induction l as [|a l IH]; cbn [List.find].
  - split; [discriminate|]. now intros (k & Hk & _).
  - destruct (P a) eqn:Ha.
    + split.
      * intros [= <-]. exists 0%nat. repeat split; [assumption|]. intros j x Hj. lia.
      * intros ([|k] & Hk & Hd & Hmin); [now injection Hk as ->|].
        specialize (Hmin 0%nat a (Nat.lt_0_succ k) eq_refl). congruence.
    + rewrite IH. split.
      * intros (k & Hk & Hd & Hmin). exists (S k). repeat split; [assumption..|].
        intros [|j] x Hj Hx; [now injection Hx as <-|]. apply (Hmin j); [lia|assumption].
      * intros ([|k] & Hk & Hd & Hmin); [injection Hk as ->; congruence|].
        exists k. repeat split; [assumption..|].
        intros j x Hj Hx. apply (Hmin (S j)); [lia|assumption].
Qed.

Lemma find_nothing (l : list A) :
  List.find P l = None <-> forall (j : nat) x, l !! j = Some x -> P x = false.
Proof.
  induction l as [|a l IH]; cbn [List.find].
  - split; [intros _ j x Hj; discriminate | reflexivity].
  - destruct (P a) eqn:Ha.
    + split; [discriminate|]. intros H. specialize (H 0%nat a eq_refl). congruence.
    + rewrite IH. split.
      * intros H [|j] x Hx; [now injection Hx as <- | now apply (H j)].
      * intros H j x Hx. now apply (H (S j)).
Qed.

End Find.

Section Slices.

Lemma slice_right (l : list Column) c :
  slice (indexOf c l + 1) l = drop (Z.to_nat (indexOf c l + 1)) l.
Proof.
  unfold slice. pose proof (indexOf_range c l).
  now destruct (Z.ltb_spec (indexOf c l + 1) 0); [lia|].
Qed.

Lemma slice_left (l : list Column) c :
  slice (Z.of_nat (length l) - indexOf c l) (reverse (slice 0 l))
  = reverse (take (Z.to_nat (indexOf c l)) l).
Proof.
  pose proof (indexOf_range c l) as Hr.
  change (slice 0 l) with l. unfold slice.
  destruct (Z.ltb_spec (Z.of_nat (length l) - indexOf c l) 0); [lia|].
  rewrite drop_reverse. f_equal. f_equal. lia.
Qed.

End Slices.

Section Shrinkable.

Context (g : ColumnGroup) (s : DataStores) (column : Column).

Let index := getColumnIndexInGroup g column.

Lemma findShrinkable_right_search :
  findShrinkableColumnForResize g s column Right
  = List.find (shrinkable g s) (drop (Z.to_nat (index + 1)) (children g)).
Proof.
  unfold findShrinkableColumnForResize, index, getColumnIndexInGroup.
  now rewrite slice_right.
Qed.

Lemma findShrinkable_left_search :
  findShrinkableColumnForResize g s column Left
  = List.find (shrinkable g s) (reverse (take (Z.to_nat index) (children g))).
Proof.
  unfold findShrinkableColumnForResize, index, getColumnIndexInGroup.
  now rewrite slice_left.
Qed.

Lemma findShrinkable_right_Some d :
  findShrinkableColumnForResize g s column Right = Some d <->
  exists k : nat, index < Z.of_nat k ∧ children g !! k = Some d ∧ shrinkable g s d = true
    ∧ forall (j : nat) x, index < Z.of_nat j < Z.of_nat k ->
        children g !! j = Some x -> shrinkable g s x = false.
Proof.
  rewrite findShrinkable_right_search, find_first.
  pose proof (indexOf_range column (children g)) as Hr.
  fold (getColumnIndexInGroup g column) in Hr. fold index in Hr.
  set (n := Z.to_nat (index + 1)). split.
  - intros (k & Hk & Hd & Hmin). rewrite lookup_drop in Hk.
    exists (n + k)%nat. repeat split; [lia | assumption..|].
    intros j x Hj Hx. apply (Hmin (j - n)%nat); [lia|].
    rewrite lookup_drop. now replace (n + (j - n))%nat with j by lia.
  - intros (k & Hlt & Hk & Hd & Hmin).
    exists (k - n)%nat. rewrite lookup_drop.
    replace (n + (k - n))%nat with k by lia. repeat split; [assumption..|].
    intros j x Hj Hx. rewrite lookup_drop in Hx. apply (Hmin (n + j)%nat); [lia|assumption].
Qed.

Lemma findShrinkable_right_None :
  findShrinkableColumnForResize g s column Right = None <->
  forall (j : nat) x, index < Z.of_nat j ->
    children g !! j = Some x -> shrinkable g s x = false.
Proof.
  rewrite findShrinkable_right_search, find_nothing.
  pose proof (indexOf_range column (children g)) as Hr.
  fold (getColumnIndexInGroup g column) in Hr. fold index in Hr.
  set (n := Z.to_nat (index + 1)). split.
  - intros H j x Hj Hx. apply (H (j - n)%nat).
    rewrite lookup_drop. now replace (n + (j - n))%nat with j by lia.
  - intros H j x Hx. rewrite lookup_drop in Hx.
    apply (H (n + j)%nat); [lia|assumption].
Qed.

Lemma reverse_take_lookup (l : list Column) (m j : nat) x :
  (m <= length l)%nat ->
  reverse (take m l) !! j = Some x <-> (j < m)%nat ∧ l !! (m - S j)%nat = Some x.
Proof.
  intros Hm. rewrite reverse_lookup_Some, length_take.
  replace (m `min` length l)%nat with m by lia. split.
  - intros [Hx Hj]. split; [assumption|]. now rewrite lookup_take_lt in Hx by lia.
  - intros [Hj Hx]. split; [|assumption]. now rewrite lookup_take_lt by lia.
Qed.

Lemma findShrinkable_left_Some d :
  findShrinkableColumnForResize g s column Left = Some d <->
  exists k : nat, Z.of_nat k < index ∧ children g !! k = Some d ∧ shrinkable g s d = true
    ∧ forall (j : nat) x, Z.of_nat k < Z.of_nat j < index ->
        children g !! j = Some x -> shrinkable g s x = false.
Proof.
  rewrite findShrinkable_left_search, find_first.
  pose proof (indexOf_range column (children g)) as Hr.
  fold (getColumnIndexInGroup g column) in Hr. fold index in Hr.
  set (m := Z.to_nat index). assert (Hm : (m <= length (children g))%nat) by lia. split.
  - intros (k & Hk & Hd & Hmin). apply (reverse_take_lookup _ _ _ _ Hm) in Hk as [Hlt Hk].
    exists (m - S k)%nat. repeat split; [lia | assumption..|].
    intros j x Hj Hx. apply (Hmin (m - S j)%nat); [lia|].
    apply (reverse_take_lookup _ _ _ _ Hm). split; [lia|].
    now replace (m - S (m - S j))%nat with j by lia.
  - intros (k & Hlt & Hk & Hd & Hmin).
    exists (m - S k)%nat. repeat split; [|assumption|].
    + apply (reverse_take_lookup _ _ _ _ Hm). split; [lia|].
      now replace (m - S (m - S k))%nat with k by lia.
    + intros j x Hj Hx. apply (reverse_take_lookup _ _ _ _ Hm) in Hx as [Hjm Hx].
      apply (Hmin (m - S j)%nat); [lia|assumption].
Qed.

Lemma findShrinkable_left_None :
  findShrinkableColumnForResize g s column Left = None <->
  forall (j : nat) x, Z.of_nat j < index ->
    children g !! j = Some x -> shrinkable g s x = false.
Proof.
  rewrite findShrinkable_left_search, find_nothing.
  pose proof (indexOf_range column (children g)) as Hr.
  fold (getColumnIndexInGroup g column) in Hr. fold index in Hr.
  set (m := Z.to_nat index). assert (Hm : (m <= length (children g))%nat) by lia. split.
  - intros H j x Hj Hx. apply (H (m - S j)%nat).
    apply (reverse_take_lookup _ _ _ _ Hm). split; [lia|].
    now replace (m - S (m - S j))%nat with j by lia.
  - intros H j x Hx. apply (reverse_take_lookup _ _ _ _ Hm) in Hx as [Hjm Hx].
    apply (H (m - S j)%nat); [lia|assumption].
Qed.

End Shrinkable.

(** X2.  [findShrinkableColumnForResize(column, "right")] returns the
    nearest shrinkable column after the column's index: a child at a
    position [k] beyond the index, wider than the smallest column width,
    with no such child strictly between; it returns [undefined] exactly
    when no child beyond the index is shrinkable.  For ["left"] it is the
    nearest shrinkable child before the index. *)
Theorem findShrinkableColumnForResize_nearest g s column :
  let index := getColumnIndexInGroup g column in
  (forall d,
     findShrinkableColumnForResize g s column Right = Some d <->
     exists k : nat, index < Z.of_nat k ∧ children g !! k = Some d ∧ shrinkable g s d = true
       ∧ forall (j : nat) x, index < Z.of_nat j < Z.of_nat k ->
           children g !! j = Some x -> shrinkable g s x = false)
  ∧ (findShrinkableColumnForResize g s column Right = None <->
     forall (j : nat) x, index < Z.of_nat j ->
       children g !! j = Some x -> shrinkable g s x = false)
  ∧ (forall d,
     findShrinkableColumnForResize g s column Left = Some d <->
     exists k : nat, Z.of_nat k < index ∧ children g !! k = Some d ∧ shrinkable g s d = true
       ∧ forall (j : nat) x, Z.of_nat k < Z.of_nat j < index ->
           children g !! j = Some x -> shrinkable g s x = false)
  ∧ (findShrinkableColumnForResize g s column Left = None <->
     forall (j : nat) x, Z.of_nat j < index ->
       children g !! j = Some x -> shrinkable g s x = false).
Proof.
  intros index. split; [|split; [|split]].
  - apply findShrinkable_right_Some.
  - apply findShrinkable_right_None.
  - apply findShrinkable_left_Some.
  - apply findShrinkable_left_None.
Qed.

(** In the row of a quarter, a half and a quarter only the half is
    shrinkable: it is found to the right of the first column, and nothing
    is found to its left. *)
Example findShrinkable_quarters :
  findShrinkableColumnForResize group3 quarters 0%nat Right = Some 1%nat
  ∧ findShrinkableColumnForResize group3 quarters 0%nat Left = None
  ∧ findShrinkableColumnForResize group3 quarters 2%nat Left = Some 1%nat.
Proof. vm_compute. repeat split. Qed.

(** X3.  For a column that is not among the children of the group the
    index is [-1]: its ["+1"] neighbour is the first child, it has no
    ["-1"] neighbour, the search to the left finds nothing and the search
    to the right runs over the whole row. *)
Theorem column_outside_the_group g s column :
  column ∉ children g ->
  getColumnIndexInGroup g column = -1
  ∧ getAdjacentColumn g column Plus1 = head (children g)
  ∧ getAdjacentColumn g column Minus1 = None
  ∧ findShrinkableColumnForResize g s column Left = None
  ∧ findShrinkableColumnForResize g s column Right = List.find (shrinkable g s) (children g).
Proof.
  intros Habsent. apply indexOf_absent in Habsent.
  unfold getAdjacentColumn, findShrinkableColumnForResize, getColumnIndexInGroup.
  rewrite Habsent. cbn [parseInt]. repeat split.
  - unfold at_index. cbn. now destruct (children g).
  - unfold slice. cbn [Z.ltb Z.compare Z.sub Z.opp Z.add].
    replace (Z.of_nat (length (children g)) - -1 <? 0) with false
      by (symmetry; apply Z.ltb_ge; lia).
    rewrite drop_ge; [reflexivity|]. rewrite length_reverse, length_drop. lia.
Qed.

Lemma column_outside_the_group_witness :
  getAdjacentColumn group3 7%nat Plus1 = Some 0%nat.
Proof.
  refine (proj1 (proj2 (column_outside_the_group group3 quarters 7%nat _))).
  cbn. rewrite !not_elem_of_cons. repeat split; try lia. apply not_elem_of_nil.
Defined.

(** ** ResizeApplier: what a call writes *)

Section Writes.

Lemma normalised_twice x : parseFloat (toString (parseFloat (toString x))) = parseFloat (toString x).
Proof. now destruct x. Qed.

Lemma strictEq_refl x : x <> NaN -> strictEq x x = true.
Proof.
  unfold strictEq, SFeqb. destruct x as [[]|[]| |[] m e]; cbn; try reflexivity;
    try (intros H; now destruct H); intros _;
    rewrite Z.compare_refl; change (PosDef.Pos.compare_cont Eq m m) with (Pos.compare m m);
    now rewrite Pos.compare_refl.
Qed.

Lemma within_not_NaN w p : within w p = true -> p <> NaN.
Proof. intros H ->. discriminate. Qed.

Lemma firstWithin_not_NaN w ps : firstWithin w ps <> NaN.
Proof.
  induction ps as [|p ps IH]; cbn [firstWithin]; [discriminate|].
  destruct (within w p) eqn:Hw; [now apply (within_not_NaN w) | exact IH].
Qed.

Lemma getColumnWidth_updated g column width s :
  getColumnWidth g (updateColumnWidth column width s) column
  = getAcceptedColumnWidth (gridSize g) (toString width).
Proof.
  unfold getColumnWidth, updateColumnWidth. cbn [widthOf]. rewrite fn_lookup_insert.
  unfold getAcceptedColumnWidth. now rewrite normalised_twice.
Qed.

Lemma getColumnWidth_not_updated g column width s c :
  column <> c ->
  getColumnWidth g (updateColumnWidth column width s) c = getColumnWidth g s c.
Proof.
  intros Hne. unfold getColumnWidth, updateColumnWidth. cbn [widthOf].
  now rewrite fn_lookup_insert_ne.
Qed.

(** Either nothing is written or the column is written last. *)
Lemma resizeColumn_cases g column width shrinkable s :
  resizeColumn g column width shrinkable s = s
  ∨ exists s1, resizeColumn g column width shrinkable s = updateColumnWidth column width s1.
Proof.
  unfold resizeColumn. destruct (strictEq _ _ || less _ _); [now left|].
  destruct shrinkable as [donor|]; [|right; now exists s].
  destruct (strictEq _ _ || less _ _); [now left|]. right. eauto.
Qed.

End Writes.

(** X4.  [resizeColumn] changes the stored width of no column other than
    the dragged column and the donor. *)
Theorem resizeColumn_touches_only_the_pair g column width shrinkable s c :
  c <> column -> shrinkable <> Some c ->
  widthOf (resizeColumn g column width shrinkable s) c = widthOf s c.
Proof.
  intros Hc Hd. unfold resizeColumn.
  destruct (strictEq _ _ || less _ _); [reflexivity|].
  destruct shrinkable as [donor|].
  - destruct (strictEq _ _ || less _ _); [reflexivity|].
    cbn [updateColumnWidth widthOf].
    rewrite !fn_lookup_insert_ne; [reflexivity | congruence | congruence].
  - cbn [updateColumnWidth widthOf]. rewrite fn_lookup_insert_ne; congruence.
Qed.

Lemma resizeColumn_touches_only_the_pair_witness :
  widthOf (resizeColumn group3 0%nat (decimal false 3333333333 8) (Some 1%nat) quarters) 2%nat
  = widthOf quarters 2%nat.
Proof.
  apply (resizeColumn_touches_only_the_pair group3 0%nat _ (Some 1%nat) quarters 2%nat);
    discriminate.
Defined.

(** X5.  With a donor, [resizeColumn] writes both widths or none: either
    no [dataStore.update] happens, or exactly two happen, first the donor
    with a width that differs from the one it read and is not below the
    smallest column width, then the column with the target.  Without a
    donor at most the column is written. *)
Theorem resizeColumn_writes_both_or_none g column width s :
  (forall donor,
     let s' := resizeColumn g column width (Some donor) s in
     updates s' = updates s
     ∨ exists size,
         updates s' = updates s ++ [(donor, size); (column, parseFloat (toString width))]
         ∧ strictEq (getColumnWidth g s donor) size = false
         ∧ less size (getSmallestColumnWidth (gridSize g)) = false)
  ∧ (let s' := resizeColumn g column width None s in
     updates s' = updates s
     ∨ updates s' = updates s ++ [(column, parseFloat (toString width))]).
Proof.
  split.
  - intros donor. cbv zeta. unfold resizeColumn.
    destruct (strictEq _ _ || less _ _); [now left|].
    destruct (strictEq _ _ || less _ _) eqn:Hguard; [now left|].
    apply orb_false_elim in Hguard as [Hsame Hsmall].
    right. eexists. cbn [updateColumnWidth updates].
    rewrite <- app_assoc. split; [reflexivity|]. now split.
  - cbv zeta. unfold resizeColumn.
    destruct (strictEq _ _ || less _ _); [now left|]. now right.
Qed.

(** X6.  Once a snapped target has been applied, the same call again
    writes nothing: the second call finds the column already at the
    target. *)
Theorem resizeColumn_again g column width shrinkable s :
  snapped (gridSize g) width ->
  resizeColumn g column width shrinkable (resizeColumn g column width shrinkable s)
  = resizeColumn g column width shrinkable s.
Proof.
  intros Hsnap.
  destruct (resizeColumn_cases g column width shrinkable s) as [E|[s1 E]];
    rewrite E; [exact E|].
  unfold resizeColumn at 1. rewrite getColumnWidth_updated, strictEq_normalised_r.
  unfold snapped in Hsnap. rewrite Hsnap.
  rewrite strictEq_refl; [reflexivity|].
  rewrite <- Hsnap, getAcceptedColumnWidth_table. apply firstWithin_not_NaN.
Qed.

Lemma resizeColumn_again_witness :
  let once := resizeColumn group3 0%nat (decimal false 3333333333 8) (Some 1%nat) quarters in
  resizeColumn group3 0%nat (decimal false 3333333333 8) (Some 1%nat) once = once.
Proof.
  apply (resizeColumn_again group3 0%nat (decimal false 3333333333 8) (Some 1%nat) quarters).
  vm_compute. reflexivity.
Defined.

(** ** WidthSnapper: what a width snaps to *)

Section SnapResult.

Lemma within_NaN p : within NaN p = false.
Proof.
  unfold within, less, SFltb.
  replace (SFcompare (sub p tenth) NaN) with (@None comparison); [reflexivity|].
  now destruct (sub p tenth).
Qed.

Lemma acceptedLoop_largest g (n : nat) w :
  (acceptedLoop g n w = zero
   ∧ forall i, 1 <= i <= Z.of_nat n -> within w (percentage g i) = false)
  ∨ (exists i, 1 <= i <= Z.of_nat n
       ∧ acceptedLoop g n w = percentage g i
       ∧ within w (percentage g i) = true
       ∧ forall j, i < j <= Z.of_nat n -> within w (percentage g j) = false).
Proof.
  induction n as [|n IH].
  - left. split; [reflexivity|]. intros i Hi. lia.
  - cbn [acceptedLoop]. destruct (within w (percentage g (Z.of_nat (S n)))) eqn:Hw.
    + right. exists (Z.of_nat (S n)). repeat split; [lia | lia | assumption|].
      intros j Hj. lia.
    + destruct IH as [[Hz Hnone]|(i & Hi & Hr & Hin & Hmax)].
      * left. split; [assumption|]. intros i Hi.
        destruct (Z.eq_dec i (Z.of_nat (S n))) as [->|]; [assumption | apply Hnone; lia].
      * right. exists i. repeat split; [lia | lia | assumption..|].
        intros j Hj.
        destruct (Z.eq_dec j (Z.of_nat (S n))) as [->|]; [assumption | apply Hmax; lia].
Qed.

Lemma tableFrom_elem u (n k : nat) :
  (1 <= k <= n)%nat -> percentageOf u (Z.of_nat k) ∈ tableFrom u n.
Proof.
  induction n as [|n IH]; intros Hk; [lia|].
  cbn [tableFrom]. destruct (Nat.eq_dec k (S n)) as [->|]; [left|].
  right. apply IH. lia.
Qed.

Lemma table_elem g i : 1 <= i <= g -> percentage g i ∈ table g.
Proof.
  intros Hi. unfold percentage, table.
  replace i with (Z.of_nat (Z.to_nat i)) by lia. apply tableFrom_elem. lia.
Qed.

Lemma tableFrom_last u (n : nat) :
  exists firsts, tableFrom u (S n) = firsts ++ [percentageOf u 1].
Proof.
  induction n as [|n [firsts IH]].
  - now exists [].
  - exists (percentageOf u (Z.of_nat (S (S n))) :: firsts).
    change (tableFrom u (S (S n)))
      with (percentageOf u (Z.of_nat (S (S n))) :: tableFrom u (S n)).
    now rewrite IH.
Qed.

Lemma lessEq_refl x : x <> NaN -> lessEq x x = true.
Proof.
  intros Hx. pose proof (strictEq_refl x Hx) as H.
  unfold strictEq, SFeqb in H. unfold lessEq, SFleb.
  now destruct (SFcompare x x) as [[]|].
Qed.

Lemma stable_last_least ps x :
  stable (ps ++ [x]) = true -> forall q, q ∈ ps ++ [x] -> lessEq x q = true.
Proof.
  induction ps as [|a ps IH]; intros Hst q Hq.
  - apply list_elem_of_singleton in Hq as ->.
    destruct (stable_cons x [] Hst) as (Hx & _). apply lessEq_refl.
    now apply (within_not_NaN x).
  - change ((a :: ps) ++ [x]) with (a :: (ps ++ [x])) in *.
    destruct (stable_cons _ _ Hst) as (_ & _ & Hlo & _ & Hrest).
    apply elem_of_cons in Hq as [->|Hq]; [|now apply IH].
    apply lessEq_trans with (sub a tenth); [|assumption].
    apply (stable_below a (ps ++ [x]) Hst). apply elem_of_app. right. left.
Qed.

Lemma smallestOkUpTo_ok n g :
  smallestOkUpTo n = true -> 1 <= g <= Z.of_nat n -> smallestOk g = true.
Proof.
  intros Hall Hg. unfold smallestOkUpTo in Hall. rewrite forallb_forall in Hall.
  specialize (Hall (Z.to_nat g)). rewrite Z2Nat.id in Hall by lia.
  apply Hall, in_seq. lia.
Qed.

End SnapResult.

Lemma smallest_ok : smallestOkUpTo 100 = true.
Proof. vm_cast_no_check (eq_refl true). Qed.

(** X7.  [getAcceptedColumnWidth] returns the percentage of the largest
    [i] from 1 to the grid size whose percentage is within 0.1 of the
    width, and 0 exactly when no percentage is. *)
Theorem getAcceptedColumnWidth_largest_within (gridSize : Z) (width : text) :
  let w := parseFloat width in
  let r := getAcceptedColumnWidth gridSize width in
  (r = zero ∧ forall i, 1 <= i <= gridSize -> within w (percentage gridSize i) = false)
  ∨ (exists i, 1 <= i <= gridSize
       ∧ r = percentage gridSize i
       ∧ within w (percentage gridSize i) = true
       ∧ forall j, i < j <= gridSize -> within w (percentage gridSize j) = false).
Proof.
  cbv zeta. unfold getAcceptedColumnWidth.
  destruct (acceptedLoop_largest gridSize (Z.to_nat gridSize) (parseFloat width))
    as [[Hz Hnone]|(i & Hi & Hr & Hin & Hmax)].
  - left. split; [assumption|]. intros i Hi. apply Hnone. lia.
  - right. exists i. repeat split; [lia | lia | assumption..|].
    intros j Hj. apply Hmax. lia.
Qed.

(** X8.  A width that does not parse (["NaN"]) snaps to 0 on every grid,
    and on a grid of size 0 or less every width snaps to 0 and the
    smallest column width is 0. *)
Theorem getAcceptedColumnWidth_degenerate (gridSize : Z) (width : text) :
  gridSize <= 0 ∨ parseFloat width = NaN ->
  getAcceptedColumnWidth gridSize width = zero
  ∧ (gridSize <= 0 -> getSmallestColumnWidth gridSize = zero).
Proof.
  intros H. split.
  - rewrite getAcceptedColumnWidth_table. destruct H as [Hg| ->].
    + now rewrite (table_nonpositive _ Hg).
    + induction (table gridSize) as [|p ps IH]; [reflexivity|].
      cbn [firstWithin]. now rewrite within_NaN.
  - intros Hg. unfold getSmallestColumnWidth. rewrite getAcceptedColumnWidth_table.
    now rewrite (table_nonpositive _ Hg).
Qed.

Lemma getAcceptedColumnWidth_degenerate_witness :
  getAcceptedColumnWidth 12 NaNText = zero.
Proof.
  refine (proj1 (getAcceptedColumnWidth_degenerate 12 NaNText _)). now right.
Defined.

Section Smallest.

Context (gridSize : Z) (Hg : 1 <= gridSize <= 100).

Lemma smallest_one_unit :
  getSmallestColumnWidth gridSize = percentage gridSize 1
  ∧ getRoundedColumnWidth (div hundred (of_Z gridSize)) = percentage gridSize 1
  ∧ less zero (percentage gridSize 1) = true.
Proof.
  pose proof (stableUpTo_stable 100 _ grids_stable Hg) as Hst.
  pose proof (smallestOkUpTo_ok 100 _ smallest_ok Hg) as Hok.
  unfold smallestOk in Hok. cbv zeta in Hok. rewrite !andb_true_iff in Hok.
  destruct Hok as [[Htext Hround] Hpos].
  apply bool_decide_eq_true in Htext. apply bool_decide_eq_true in Hround.
  repeat split; [|exact Hround|exact Hpos].
  unfold getSmallestColumnWidth. rewrite getAcceptedColumnWidth_table, Htext.
  apply (stable_self _ Hst). apply table_elem. lia.
Qed.

Lemma table_at_least_smallest p :
  p ∈ table gridSize -> lessEq (getSmallestColumnWidth gridSize) p = true.
Proof.
  intros Hin. destruct smallest_one_unit as (-> & _ & _).
  pose proof (stableUpTo_stable 100 _ grids_stable Hg) as Hst.
  unfold table in *.
  destruct (tableFrom_last (div hundred (of_Z gridSize)) (Z.to_nat gridSize - 1)) as [firsts E].
  replace (S (Z.to_nat gridSize - 1)) with (Z.to_nat gridSize) in E by lia.
  rewrite E in *. exact (stable_last_least firsts _ Hst _ Hin).
Qed.

End Smallest.

(** X9.  For a grid size from 1 to 100 the smallest column width is the
    rounded width of one grid unit, it is above 0, and every width snaps
    either to 0 or to a width that is at least the smallest column width. *)
Theorem getSmallestColumnWidth_one_unit (gridSize : Z) (width : text) :
  1 <= gridSize <= 100 ->
  getSmallestColumnWidth gridSize = getRoundedColumnWidth (div hundred (of_Z gridSize))
  ∧ less zero (getSmallestColumnWidth gridSize) = true
  ∧ (getAcceptedColumnWidth gridSize width = zero
     ∨ lessEq (getSmallestColumnWidth gridSize) (getAcceptedColumnWidth gridSize width) = true).
Proof.
  intros Hg. destruct (smallest_one_unit gridSize Hg) as (Hone & Hround & Hpos).
  repeat split; [now rewrite Hone, Hround | now rewrite Hone |].
  rewrite getAcceptedColumnWidth_table.
  destruct (firstWithin_cases (parseFloat width) (table gridSize)) as [Hz|Hin]; [now left|].
  right. now apply table_at_least_smallest.
Qed.

Lemma getSmallestColumnWidth_one_unit_witness :
  less zero (getSmallestColumnWidth 12) = true.
Proof.
  refine (proj1 (proj2 (getSmallestColumnWidth_one_unit 12 NaNText _))). lia.
Defined.

(** ** PositionCalculator: the candidates *)

Section Candidates.

Context (g : ColumnGroup) (preview : Column -> Preview) (column : Column)
        (groupPosition : GroupPositionCache).

Lemma determineColumnWidths_parts cs :
  determineColumnWidths g preview column groupPosition = Some cs ->
  exists lefts rights, cs = lefts ++ rights
    ∧ (forall cand, cand ∈ lefts -> exists i, 1 <= i <= gridSize g ∧ candidateAt g "left" i cand)
    ∧ (forall cand, cand ∈ rights -> exists i, 1 <= i < gridSize g ∧ candidateAt g "right" i cand).
Proof.
  unfold determineColumnWidths.
  destruct (getAdjacentColumn g column Plus1) as [adjacentColumn|]; [|discriminate].
  cbn [mbind option_bind]. intros [= <-].
  eexists _, _. split; [reflexivity|]. split.
  - intros cand Hin. apply list_elem_of_omap in Hin as (i & Hi & Hcand).
    apply elem_of_reverse, elem_of_seqZ in Hi.
    destruct (less _ _); [discriminate|]. injection Hcand as <-.
    exists i. split; [lia|]. now repeat split.
  - intros cand Hin. apply list_elem_of_omap in Hin as (i & Hi & Hcand).
    apply elem_of_seqZ in Hi.
    destruct (less _ _); [discriminate|]. injection Hcand as <-.
    exists i. split; [lia|]. now repeat split.
Qed.

Lemma determineColumnWidths_snapped cs cand :
  1 <= gridSize g <= 100 ->
  determineColumnWidths g preview column groupPosition = Some cs ->
  cand ∈ cs -> snapped (gridSize g) (width cand).
Proof.
  intros Hg Hcs Hin.
  destruct (determineColumnWidths_parts cs Hcs) as (lefts & rights & -> & Hl & Hr).
  assert (Hi : exists i, 1 <= i <= gridSize g ∧ width cand = percentage (gridSize g) i).
  { apply elem_of_app in Hin as [Hin|Hin].
    - destruct (Hl cand Hin) as (i & Hi & _ & _ & Hw). eauto.
    - destruct (Hr cand Hin) as (i & Hi & _ & _ & Hw). exists i. split; [lia|assumption]. }
  destruct Hi as (i & Hi & ->).
  apply stable_snapped; [exact (stableUpTo_stable 100 _ grids_stable Hg)|].
  right. now apply table_elem.
Qed.

End Candidates.

(** X10.  Every candidate of [determineColumnWidths] belongs to a grid
    index [i]: it is named ["i/gridSize"], its width is the percentage of
    [i], the candidates for "left" ([1 <= i <= gridSize]) come before the
    candidates for "right" ([1 <= i < gridSize]); and for a grid size from
    1 to 100 every candidate width is a snapped width. *)
Theorem determineColumnWidths_candidates g preview column groupPosition cs :
  determineColumnWidths g preview column groupPosition = Some cs ->
  (exists lefts rights, cs = lefts ++ rights
     ∧ (forall cand, cand ∈ lefts ->
          exists i, 1 <= i <= gridSize g ∧ candidateAt g "left" i cand)
     ∧ (forall cand, cand ∈ rights ->
          exists i, 1 <= i < gridSize g ∧ candidateAt g "right" i cand))
  ∧ (1 <= gridSize g <= 100 -> forall cand, cand ∈ cs -> snapped (gridSize g) (width cand)).
Proof.
  intros Hcs. split; [now apply (determineColumnWidths_parts g preview column groupPosition)|].
  intros Hg cand Hin.
  now apply (determineColumnWidths_snapped g preview column groupPosition cs).
Qed.

Example determineColumnWidths_two_columns :
  (λ cs, map (λ c, (forColumn c, name c)) cs) <$>
    determineColumnWidths group12 twoColumns 0%nat group1200
  = Some [("left", "11/12"); ("left", "10/12"); ("left", "9/12"); ("left", "8/12");
          ("left", "7/12"); ("left", "6/12"); ("left", "5/12"); ("left", "4/12");
          ("left", "3/12"); ("left", "2/12"); ("left", "1/12");
          ("right", "1/12"); ("right", "2/12"); ("right", "3/12"); ("right", "4/12");
          ("right", "5/12"); ("right", "6/12"); ("right", "7/12"); ("right", "8/12");
          ("right", "9/12"); ("right", "10/12"); ("right", "11/12")].
Proof. vm_compute. reflexivity. Qed.

Lemma determineColumnWidths_candidates_witness :
  exists cs, determineColumnWidths group12 twoColumns 0%nat group1200 = Some cs
    ∧ forall cand, cand ∈ cs -> snapped 12 (width cand).
Proof.
  destruct (determineColumnWidths group12 twoColumns 0%nat group1200) as [cs|] eqn:E;
    [|vm_compute in E; discriminate].
  exists cs. split; [reflexivity|].
  refine (proj2 (determineColumnWidths_candidates group12 twoColumns 0%nat group1200 cs E) _).
  cbn. lia.
Defined.

(** X11.  On a grid of size 1 or less [determineColumnWidths] offers no
    candidate for "right", so [determineMaxGhostWidth] throws on its
    result. *)
Theorem determineMaxGhostWidth_single_grid g preview column groupPosition cs :
  gridSize g <= 1 ->
  determineColumnWidths g preview column groupPosition = Some cs ->
  determineMaxGhostWidth cs = None.
Proof.
  intros Hg Hcs.
  destruct (determineColumnWidths_parts g preview column groupPosition cs Hcs)
    as (lefts & rights & -> & Hl & Hr).
  assert (Hnone : forall x, x ∈ lefts ++ rights -> forColumn x ≠ "right").
  { intros x Hx. apply elem_of_app in Hx as [Hx|Hx].
    - destruct (Hl x Hx) as (i & _ & -> & _). discriminate.
    - destruct (Hr x Hx) as (i & Hi & _). lia. }
  unfold determineMaxGhostWidth.
  rewrite (filter_none (λ w, forColumn w = "right") _ Hnone).
  now destruct (head _).
Qed.

Lemma determineMaxGhostWidth_single_grid_witness :
  exists cs,
    determineColumnWidths {| gridSize := 1; children := [0%nat; 1%nat] |} twoColumns 0%nat
      group1200 = Some cs
    ∧ determineMaxGhostWidth cs = None.
Proof.
  destruct (determineColumnWidths {| gridSize := 1; children := [0%nat; 1%nat] |} twoColumns
              0%nat group1200) as [cs|] eqn:E; [|vm_compute in E; discriminate].
  exists cs. split; [reflexivity|].
  apply (determineMaxGhostWidth_single_grid {| gridSize := 1; children := [0%nat; 1%nat] |}
           twoColumns 0%nat group1200 cs); [cbn; lia | exact E].
Defined.

(** ** ResizeDecision: the history and the donor *)

(** X12.  [determineAdjustedColumn] never throws, and it hands the history
    back as it was: each [reverse()] it performs on an array of the
    history is undone by the next one. *)
Theorem determineAdjustedColumn_keeps_history g s preview currentPos column history :
  exists adjustment,
    determineAdjustedColumn g s preview currentPos column history
    = Some (adjustment, history).
Proof.
  destruct (lessEq (handle preview column) currentPos) eqn:Hpos.
  - destruct (historyLeft history) as [|oldest rest] eqn:Hleft.
    + unfold determineAdjustedColumn. unfold handle in Hpos. rewrite Hpos, Hleft.
      cbn. eauto.
    + destruct (last (historyLeft history)) as [newest|] eqn:Hlast.
      * eexists.
        exact (determineAdjustedColumn_left_history g s preview currentPos column history
                 oldest rest newest Hpos Hleft Hlast).
      * apply last_None in Hlast. congruence.
  - destruct (lessEq (getColumnWidth g s column) (getSmallestColumnWidth (gridSize g))) eqn:Hmin.
    + unfold determineAdjustedColumn. unfold handle in Hpos. rewrite Hpos, Hmin. eauto.
    + destruct (historyRight history) as [|oldest rest] eqn:Hright.
      * unfold determineAdjustedColumn. unfold handle in Hpos. rewrite Hpos, Hmin, Hright.
        cbn. eauto.
      * destruct (last (historyRight history)) as [newest|] eqn:Hlast.
        -- eexists.
           exact (determineAdjustedColumn_right_history g s preview currentPos column history
                    oldest rest newest Hpos Hmin Hright Hlast).
        -- apply last_None in Hlast. congruence.
Qed.

Section FreshDecision.

Context (g : ColumnGroup) (s : DataStores) (preview : Column -> Preview)
        (currentPos : number) (column : Column).

(** With an empty history the adjusted column is found by one of the
    three searches. *)
Lemma determineAdjustedColumn_fresh adjustment history d :
  determineAdjustedColumn g s preview currentPos column emptyHistory
  = Some (adjustment, history) ->
  adjusted adjustment = Some d ->
  (modifyInPair adjustment = "left"
   ∧ (findShrinkableColumnForResize g s column Right = Some d
      ∨ getAdjacentColumn g column Plus1 = Some d))
  ∨ (modifyInPair adjustment = "right"
     ∧ findShrinkableColumnForResize g s column Left = Some d).
Proof.
  unfold determineAdjustedColumn, emptyHistory. cbn [historyLeft historyRight length].
  cbn [Z.of_nat Z.ltb Z.compare].
  destruct (lessEq _ currentPos).
  - intros [= <- _]. cbn [adjusted modifyInPair]. intros Hd. left. auto.
  - destruct (lessEq _ _).
    + intros [= <- _]. cbn [adjusted modifyInPair]. intros Hd. right.
      rewrite Hd. now split.
    + intros [= <- _]. cbn [adjusted modifyInPair]. intros Hd. left. auto.
Qed.

Lemma indexOf_present (i : nat) :
  children g !! i = Some column ->
  exists i0 : nat, getColumnIndexInGroup g column = Z.of_nat i0
                   ∧ children g !! i0 = Some column.
Proof.
  intros Hi. unfold getColumnIndexInGroup.
  pose proof (indexOf_range column (children g)) as Hr.
  destruct (Z.eq_dec (indexOf column (children g)) (-1)) as [E|E].
  - apply indexOf_absent in E. destruct E. eapply list_elem_of_lookup_2, Hi.
  - exists (Z.to_nat (indexOf column (children g))).
    split; [lia|]. apply (indexOf_first column (children g)). lia.
Qed.

Lemma getAdjacentColumn_next d :
  getAdjacentColumn g column Plus1 = Some d ->
  exists k : nat, getColumnIndexInGroup g column < Z.of_nat k ∧ children g !! k = Some d.
Proof.
  unfold getAdjacentColumn. cbn [parseInt]. unfold at_index.
  destruct (Z.ltb_spec (getColumnIndexInGroup g column + 1) 0); [discriminate|].
  intros Hd. exists (Z.to_nat (getColumnIndexInGroup g column + 1)). split; [lia|assumption].
Qed.

Lemma fresh_pick_position adjustment history d (i : nat) :
  NoDup (children g) ->
  children g !! i = Some column ->
  determineAdjustedColumn g s preview currentPos column emptyHistory
  = Some (adjustment, history) ->
  adjusted adjustment = Some d ->
  exists k : nat, children g !! k = Some d
    ∧ ((modifyInPair adjustment = "left" ∧ (i < k)%nat)
       ∨ (modifyInPair adjustment = "right" ∧ (k < i)%nat)).
Proof.
  intros Hnd Hi Hdec Hd.
  pose proof (indexOf_NoDup column _ i Hnd Hi) as Hindex.
  fold (getColumnIndexInGroup g column) in Hindex.
  destruct (determineAdjustedColumn_fresh _ _ d Hdec Hd)
    as [[Hside [Hfound|Hfound]]|[Hside Hfound]].
  - apply findShrinkable_right_Some in Hfound as (k & Hlt & Hk & _).
    exists k. split; [assumption|]. left. split; [assumption|lia].
  - apply getAdjacentColumn_next in Hfound as (k & Hlt & Hk).
    exists k. split; [assumption|]. left. split; [assumption|lia].
  - apply findShrinkable_left_Some in Hfound as (k & Hlt & Hk & _).
    exists k. split; [assumption|]. right. split; [assumption|lia].
Qed.

End FreshDecision.

(** X13.  At the start of a gesture (empty history), in a row without
    duplicates, the column [determineAdjustedColumn] picks for a child is
    another child of the row, and [modifyColumnInPair] tells its side: for
    ["left"] the picked column stands after the dragged one, for
    ["right"] before it. *)
Theorem determineAdjustedColumn_picks_a_neighbour
    g s preview currentPos column adjustment history d (i : nat) :
  NoDup (children g) ->
  children g !! i = Some column ->
  determineAdjustedColumn g s preview currentPos column emptyHistory
  = Some (adjustment, history) ->
  adjusted adjustment = Some d ->
  d <> column
  ∧ exists k : nat, children g !! k = Some d
      ∧ ((modifyInPair adjustment = "left" ∧ (i < k)%nat)
         ∨ (modifyInPair adjustment = "right" ∧ (k < i)%nat)).
Proof.
  intros Hnd Hi Hdec Hd.
  pose proof (fresh_pick_position g s preview currentPos column _ _ d i Hnd Hi Hdec Hd) as Hk.
  split; [|exact Hk].
  destruct Hk as (k & Hk & Hside). intros ->.
  pose proof (NoDup_lookup _ _ _ _ Hnd Hi Hk). lia.
Qed.

Lemma determineAdjustedColumn_picks_a_neighbour_witness :
  exists adjustment,
    determineAdjustedColumn group3 quarters threeColumns
      (of_Z 500) 0%nat emptyHistory = Some (adjustment, emptyHistory)
    ∧ adjusted adjustment = Some 1%nat ∧ 1%nat <> 0%nat.
Proof.
  exists {| adjusted := Some 1%nat; modifyInPair := "left"; usedHistory := None |}.
  split; [vm_compute; reflexivity|]. split; [reflexivity|].
  refine (proj1 (determineAdjustedColumn_picks_a_neighbour group3 quarters
                   threeColumns (of_Z 500) 0%nat
                   {| adjusted := Some 1%nat; modifyInPair := "left"; usedHistory := None |}
                   emptyHistory 1%nat 0%nat _ eq_refl _ eq_refl)).
  - cbn. repeat constructor; rewrite ?elem_of_cons, ?elem_of_nil; lia.
  - vm_compute. reflexivity.
Defined.

(** ** [comparator] and [calculateGhostWidth] *)

Section Comparator.

Lemma less_asymmetric x y : less x y && less y x = false.
Proof.
  unfold less, SFltb. rewrite (compare_swap x y).
  now destruct (SFcompare x y) as [[]|].
Qed.

Lemma not_less_self x : less x x = false.
Proof.
  pose proof (less_asymmetric x x) as H. now destruct (less x x).
Qed.

Lemma less_NaN_r x : less x NaN = false.
Proof. now destruct x. Qed.

Lemma compare_sub_zero x y : SFcompare (sub x zero) y = SFcompare x y.
Proof. destruct x as [[]| | |], y; reflexivity. Qed.

Lemma compare_add_zero x y : SFcompare y (add x zero) = SFcompare y x.
Proof. destruct x as [[]| | |], y; reflexivity. Qed.

End Comparator.

(** X14.  [comparator] is false whenever an argument is [NaN] and
    whenever the threshold is 0 (with no margin not even a number and
    itself compare as close), and its margin is exclusive: the two ends
    [num2 - threshold / 2] and [num2 + threshold / 2] do not compare as
    close to [num2].  With the threshold 0.2 it is the tolerance test of
    [getAcceptedColumnWidth]. *)
Theorem comparator_margins num1 num2 threshold :
  (num1 = NaN ∨ num2 = NaN ∨ threshold = NaN ∨ threshold = zero ->
   comparator num1 num2 threshold = false)
  ∧ comparator (sub num2 (div threshold (of_Z 2))) num2 threshold = false
  ∧ comparator (add num2 (div threshold (of_Z 2))) num2 threshold = false
  ∧ comparator num1 num2 (decimal false 2 1) = within num1 num2.
Proof.
  split; [|split; [|split; [|reflexivity]]].
  - unfold comparator. intros [-> | [-> | [-> | ->]]].
    + now rewrite less_NaN_r.
    + reflexivity.
    + change (div NaN (of_Z 2)) with NaN.
      replace (sub num2 NaN) with NaN by now destruct num2.
      reflexivity.
    + change (div zero (of_Z 2)) with zero. unfold less, SFltb.
      rewrite compare_sub_zero, compare_add_zero.
      apply less_asymmetric.
  - unfold comparator. now rewrite not_less_self.
  - unfold comparator. now rewrite not_less_self, andb_false_r.
Qed.

Lemma comparator_margins_witness :
  comparator (of_Z 10) (of_Z 10) zero = false.
Proof.
  refine (proj1 (comparator_margins (of_Z 10) (of_Z 10) zero) _). auto.
Defined.

(** The two examples of the doc comment of [comparator].  The first one,
    [comparator(10, 11, 2)], is given there as true; 10 is the lower end
    [11 - 2 / 2] itself, and the code returns false. *)
Example comparator_documented :
  comparator (of_Z 10) (of_Z 11) (of_Z 2) = false
  ∧ comparator (decimal false 11 1) (decimal false 111 2) (decimal false 5 1) = true.
Proof. vm_compute. split; reflexivity. Qed.

(** X15.  For the "left" column of the pair the ghost is clamped: from
    the left maximum on it is exactly the maximum, and before it the ghost
    is never narrower than the position of one grid column.  For a
    [modifyColumnInPair] that is neither "left" nor "right" nothing is
    clamped. *)
Theorem calculateGhostWidth_clamped
    g positionLeft groupPosition currentPos column modifyColumnInPair maxGhostWidth :
  let ghost := calculateGhostWidth g positionLeft groupPosition currentPos column
                 modifyColumnInPair maxGhostWidth in
  let single := add (positionLeft column)
                    (div (groupOuterWidth groupPosition) (of_Z (gridSize g))) in
  (modifyColumnInPair = "left" ->
   (lessEq (ghostLeft maxGhostWidth) currentPos = true
    ∧ ghost = sub (ghostLeft maxGhostWidth) (groupLeft groupPosition))
   ∨ (lessEq (ghostLeft maxGhostWidth) currentPos = false
      ∧ less ghost single = false))
  ∧ (modifyColumnInPair = "right" ->
     ghost = if lessEq currentPos (ghostRight maxGhostWidth)
             then sub (ghostRight maxGhostWidth) (groupLeft groupPosition)
             else sub currentPos (groupLeft groupPosition))
  ∧ (modifyColumnInPair <> "left" -> modifyColumnInPair <> "right" ->
     ghost = sub currentPos (groupLeft groupPosition)).
Proof.
  cbv zeta. unfold calculateGhostWidth. repeat split.
  - intros ->. cbn [decide]. rewrite decide_True by reflexivity.
    destruct (lessEq (ghostLeft maxGhostWidth) currentPos); [now left|right].
    split; [reflexivity|].
    destruct (lessEq (sub currentPos _) _) eqn:Hle.
    + apply not_less_self.
    + unfold lessEq, SFleb in Hle. unfold less, SFltb.
      now destruct (SFcompare _ _) as [[]|].
  - intros ->. rewrite decide_False by discriminate. now rewrite decide_True.
  - intros Hl Hr. now rewrite !decide_False.
Qed.

(** ** A whole resize frame *)

Section Frame.

Lemma resizeColumn_total_step g column width donor s :
  1 <= gridSize g <= 16 ->
  NoDup (children g) ->
  column ∈ children g -> donor ∈ children g -> column ≠ donor ->
  snapped (gridSize g) width ->
  (forall c, c ∈ children g -> snapped (gridSize g) (widthOf s c)) ->
  sumsTo100 g s ->
  sumsTo100 g (resizeColumn g column width (Some donor) s)
  ∧ (forall c, c ∈ children g ->
       snapped (gridSize g) (widthOf (resizeColumn g column width (Some donor) s) c)).
Proof.
  intros HG Hnd Hcol Hdon Hne Hw Hrow Hsum.
  pose proof (gridsOkUpTo_gridOk 16 _ grids_ok HG) as Hok.
  unfold gridOk in Hok. rewrite !andb_true_iff in Hok. destruct Hok as [[Hst Hval] Hpairs].
  assert (E : resizeColumn g column width (Some donor) s =
              match resizeOutcome (table (gridSize g)) (getSmallestColumnWidth (gridSize g))
                      (widthOf s column) (widthOf s donor) width with
              | None => s
              | Some size => updateColumnWidth column width (updateColumnWidth donor size s)
              end).
  { rewrite resizeColumn_outcome. unfold getColumnWidth.
    now rewrite (Hrow column Hcol), (Hrow donor Hdon). }
  rewrite E. clear E.
  destruct (resizeOutcome _ _ _ _ _) as [size|] eqn:Hout; [|split; assumption].
  set (ps := table (gridSize g)) in *.
  pose proof (fun c Hc => snapped_grid _ _ (Hrow c Hc)) as Hgrid. fold ps in Hgrid.
  pose proof (snapped_grid _ _ Hw) as Hwg. fold ps in Hwg.
  pose proof (resizeOutcome_grid _ _ _ _ _ _ Hout) as Hsg.
  pose proof (pairsOk_units _ _ _ _ _ _ Hpairs (Hgrid _ Hcol) (Hgrid _ Hdon) Hwg Hout) as Hunits.
  assert (Hnorm : forall x, x = zero ∨ x ∈ ps -> parseFloat (toString x) = x).
  { intros x [->|Hx]; [reflexivity | now apply (stable_normal ps)]. }
  set (W := widthOf s) in *.
  set (W' := <[column := width]> (<[donor := size]> W)).
  assert (HW' : widthOf (updateColumnWidth column width (updateColumnWidth donor size s)) = W').
  { cbn [updateColumnWidth widthOf]. now rewrite (Hnorm width Hwg), (Hnorm size Hsg). }
  assert (Hgrid' : forall c, c ∈ children g -> W' c = zero ∨ W' c ∈ ps).
  { intros c Hc. unfold W', insert, fn_insert.
    destruct (decide (column = c)); [assumption|].
    destruct (decide (donor = c)); [assumption | now apply Hgrid]. }
  assert (Hunits' : rowUnits ps W' (children g) = rowUnits ps W (children g)).
  { unfold W'. rewrite !rowUnits_insert by assumption.
    rewrite fn_lookup_insert_ne by (intros E; apply Hne; now symmetry). lia. }
  pose proof (sumValues_units _ _ _ _ Hst Hval Hgrid) as HB.
  pose proof (sumValues_units _ _ _ _ Hst Hval Hgrid') as HB'.
  pose proof (total_fixes_units _ _ _ HG (rowUnits_nonneg _ _ _) HB Hsum) as HK.
  split.
  - unfold sumsTo100, rowWidth. rewrite HW'.
    apply (units_fix_total (gridSize g)); [exact HG|].
    now rewrite Hunits', HK in HB'.
  - intros c Hc. rewrite HW'. now apply stable_snapped, Hgrid'.
Qed.

Lemma resizeOutcome_guards ps smallest a b w size :
  resizeOutcome ps smallest a b w = Some size ->
  strictEq b (parseFloat (toString size)) = false
  ∧ less (parseFloat (toString size)) smallest = false.
Proof.
  unfold resizeOutcome. destruct (strictEq a _ || less _ smallest); [discriminate|].
  destruct (strictEq b _ || less _ smallest) eqn:Hguard; [discriminate|].
  intros [= <-]. now apply orb_false_elim in Hguard.
Qed.

End Frame.

(** X16.  For a grid size from 1 to 100, whatever the target, a donor is
    only ever written with a width of the grid: when [resizeColumn] writes
    with a donor, the donor's new width is snapped and is at least the
    smallest column width. *)
Theorem resizeColumn_donor_on_grid g column width donor s :
  1 <= gridSize g <= 100 ->
  let s' := resizeColumn g column width (Some donor) s in
  updates s' = updates s
  ∨ exists size,
      updates s' = updates s ++ [(donor, size); (column, parseFloat (toString width))]
      ∧ snapped (gridSize g) size
      ∧ lessEq (getSmallestColumnWidth (gridSize g)) size = true.
Proof.
  intros Hg. cbv zeta. rewrite resizeColumn_outcome.
  destruct (resizeOutcome _ _ _ _ _) as [size|] eqn:Hout; [|now left].
  right. pose proof (stableUpTo_stable 100 _ grids_stable Hg) as Hst.
  destruct (smallest_one_unit _ Hg) as (Hone & _ & Hpos).
  pose proof (resizeOutcome_grid _ _ _ _ _ _ Hout) as Hgrid.
  assert (Hin : size ∈ table (gridSize g)).
  { destruct Hgrid as [->|Hin]; [exfalso|exact Hin].
    destruct (resizeOutcome_guards _ _ _ _ _ _ Hout) as [_ Hsmall].
    change (parseFloat (toString zero)) with zero in Hsmall. congruence. }
  exists size. cbn [updateColumnWidth updates].
  rewrite (stable_normal _ _ Hst Hin), <- app_assoc. repeat split.
  - apply stable_snapped; [exact Hst | now right].
  - now apply table_at_least_smallest.
Qed.

Lemma resizeColumn_donor_on_grid_witness :
  let s' := resizeColumn group3 0%nat (decimal false 3333333333 8) (Some 1%nat) quarters in
  updates s' = updates quarters
  ∨ exists size,
      updates s' = updates quarters
                   ++ [(1%nat, size);
                       (0%nat, parseFloat (toString (decimal false 3333333333 8)))]
      ∧ snapped 12 size
      ∧ lessEq (getSmallestColumnWidth 12) size = true.
Proof.
  apply (resizeColumn_donor_on_grid group3 0%nat (decimal false 3333333333 8) 1%nat quarters).
  cbn. lia.
Defined.

(** X17.  A resize frame put together from the engine's own parts keeps
    the row invariant.  For a grid size from 1 to 16 and a row of distinct
    columns that store snapped widths summing to 100 within [10^-6]: take
    any candidate of [determineColumnWidths] for a child and the column
    that [determineAdjustedColumn] picks at the start of a gesture as
    donor; after [resizeColumn] with that candidate's width the row again
    stores snapped widths that sum to 100 within [10^-6]. *)
Theorem resize_frame_keeps_total
    g s preview groupPosition currentPos column cs cand adjustment history donor :
  1 <= gridSize g <= 16 ->
  NoDup (children g) ->
  column ∈ children g ->
  (forall c, c ∈ children g -> snapped (gridSize g) (widthOf s c)) ->
  sumsTo100 g s ->
  determineColumnWidths g preview column groupPosition = Some cs ->
  cand ∈ cs ->
  determineAdjustedColumn g s preview currentPos column emptyHistory
  = Some (adjustment, history) ->
  adjusted adjustment = Some donor ->
  sumsTo100 g (resizeColumn g column (width cand) (Some donor) s)
  ∧ (forall c, c ∈ children g ->
       snapped (gridSize g) (widthOf (resizeColumn g column (width cand) (Some donor) s) c)).
Proof.
  intros Hg Hnd Hcol Hrow Hsum Hcs Hcand Hdec Hdonor.
  apply list_elem_of_lookup_1 in Hcol as Hi. destruct Hi as [i Hi].
  destruct (fresh_pick_position g s preview currentPos column _ _ donor i Hnd Hi Hdec Hdonor)
    as (k & Hk & Hside).
  apply resizeColumn_total_step; try assumption.
  - eapply list_elem_of_lookup_2, Hk.
  - intros ->. pose proof (NoDup_lookup _ _ _ _ Hnd Hi Hk). lia.
  - apply (determineColumnWidths_snapped g preview column groupPosition cs); [lia|assumption..].
Qed.

Lemma resize_frame_keeps_total_witness :
  exists cs cand,
    determineColumnWidths group3 threeColumns 0%nat group1200 = Some cs
    ∧ cs !! 6%nat = Some cand
    ∧ sumsTo100 group3 (resizeColumn group3 0%nat (width cand) (Some 1%nat) quarters).
Proof.
  destruct (determineColumnWidths group3 threeColumns 0%nat group1200) as [cs|] eqn:E;
    [|vm_compute in E; discriminate].
  assert (Hsome : determineColumnWidths group3 threeColumns 0%nat group1200
                  ≫= (λ l, l !! 6%nat) <> None) by (vm_compute; discriminate).
  rewrite E in Hsome. cbn [mbind option_bind] in Hsome.
  destruct (cs !! 6%nat) as [cand|] eqn:Ec; [|congruence].
  exists cs, cand. split; [reflexivity|]. split; [exact Ec|].
  refine (proj1 (resize_frame_keeps_total group3 quarters threeColumns group1200 (of_Z 500)
                   0%nat cs cand
                   {| adjusted := Some 1%nat; modifyInPair := "left"; usedHistory := None |}
                   emptyHistory 1%nat _ _ _ _ _ E _ _ eq_refl)).
  - cbn. lia.
  - cbn. repeat constructor; rewrite ?elem_of_cons, ?elem_of_nil; lia.
  - cbn. rewrite !elem_of_cons. auto.
  - intros c Hc. cbn in Hc. rewrite !elem_of_cons, elem_of_nil in Hc.
    destruct Hc as [->|[->|[->|[]]]]; vm_compute; reflexivity.
  - unfold sumsTo100. vm_compute. discriminate.
  - eapply list_elem_of_lookup_2, Ec.
  - vm_compute. reflexivity.
Defined.

Lemma calculateGhostWidth_clamped_witness :
  calculateGhostWidth group12 (λ _, zero) group1200 (of_Z 2000) 0%nat "left"
    {| ghostLeft := of_Z 1100; ghostRight := of_Z 100 |}
  = sub (of_Z 1100) zero.
Proof.
  destruct (proj1 (calculateGhostWidth_clamped group12 (λ _, zero) group1200 (of_Z 2000)
                     0%nat "left" {| ghostLeft := of_Z 1100; ghostRight := of_Z 100 |})
              eq_refl) as [[_ H]|[H _]].
  - exact H.
  - vm_compute in H. discriminate.
Defined.

(** * Properties of the WYSIWYG form element *)

Import Wysiwyg.

Section Run.

(** A property of the start that every action keeps holds after any run. *)
Lemma after_invariant (P : Component -> Prop) actions c :
  P c -> (forall c a, P c -> P (step c a)) -> P (after actions c).
Proof.
  intros H0 Hstep. revert c H0.
  induction actions as [|a actions IH]; intros c H0; [exact H0|].
  simpl. apply IH, Hstep, H0.
Qed.

End Run.

Ltac handlers :=
  unfold step, heard, initialize, pageBuilderEditButtonClick, initPageBuilder,
    initPageBuilderListeners, onReadyAfter, onRenderAfter, onMasterFormatRenderAfter,
    onFullScreenModeChangeAfter, resolve, run, later, toggleFullScreen,
    disableDomObserver, constructed, triggered in *.

Ltac effects_done :=
  simpl in *; rewrite ?filter_app, ?omap_app, ?length_app in *; simpl in *.

Section Construction.

Lemma built_step c a : built c -> built (step c a).
Proof.
  unfold built. destruct c as [tr tro vis ini lo bu pb wm mo va li rd fd re ef ti].
  destruct a as [id|n id| | |v|fs| |n]; handlers; simpl.
  - destruct bu, ini; simpl; effects_done; intros (H1 & H2 & H3);
      repeat split; eauto; lia.
  - destruct bu, ini; simpl; effects_done; intros (H1 & H2 & H3);
      repeat split; eauto; lia.
  - destruct li; simpl; auto.
  - destruct li; simpl; auto.
    destruct rd, fd; simpl; auto.
  - destruct li; simpl; auto.
  - destruct li; simpl; auto.
    destruct fs, bu, wm, mo, rd, fd, re; simpl; effects_done; auto;
      destruct ini; intros (H1 & H2 & H3); repeat split; auto; lia.
  - destruct ini; simpl; effects_done; auto.
    intros (H1 & H2 & H3); repeat split; auto; lia.
  - destruct (ti !! n) as [[|]|]; simpl; auto.
Qed.

Lemma built_defaults button v : built (defaults button v).
Proof. unfold built. simpl. auto. Qed.

Lemma addressed_step c a : addressed c -> addressed (step c a).
Proof.
  unfold addressed. destruct c as [tr tro vis ini lo bu pb wm mo va li rd fd re ef ti].
  destruct a as [id|n id| | |v|fs| |n]; handlers; simpl.
  - destruct bu, ini; simpl; effects_done; auto.
    intros ->. exists id. split; [reflexivity|]. constructor.
  - destruct bu, ini; simpl; effects_done;
      try (intros (k & -> & H); exists k; split; [reflexivity|];
           apply Forall_app; split; [exact H|repeat constructor]);
      intros ->; exists id; (split; [reflexivity|]); repeat constructor.
  - destruct li; simpl; auto.
  - destruct li; simpl; auto.
    destruct rd, fd; simpl; auto.
  - destruct li; simpl; auto.
  - destruct li; simpl; auto.
    destruct fs, bu, wm, mo, rd, fd, re; simpl; effects_done; auto;
      destruct ini; rewrite ?app_nil_r; auto.
  - destruct ini; simpl; effects_done; auto. now rewrite app_nil_r.
  - destruct (ti !! n) as [[|]|]; simpl; auto.
Qed.

End Construction.

(** X18.  Whatever happens to a new component, in whatever order, the
    PageBuilder constructor is called at most once: the component is marked
    initialized exactly when it was called, exactly then it holds a
    PageBuilder object, and exactly then its listeners exist. *)
Theorem pageBuilder_constructed_once (button : bool) (v : string) (actions : list Action) :
  let c := after actions (defaults button v) in
  (constructed c <= 1)%nat
  ∧ (constructed c = 1%nat <-> isComponentInitialized c = true)
  ∧ (is_Some (pageBuilder c) <-> isComponentInitialized c = true)
  ∧ listening c = isComponentInitialized c.
Proof.
  intros c.
  assert (H : built c)
    by (apply after_invariant; [apply built_defaults | apply built_step]).
  unfold built in H. destruct (isComponentInitialized c).
  - destruct H as (H1 & H2 & H3). rewrite H1, H3. repeat split; auto.
  - destruct H as (H1 & H2 & H3). rewrite H1, H2, H3.
    repeat split; try lia; try discriminate. intros [x Hx]. discriminate.
Qed.

(** X19.  Every toggle event the component sends names the stage of the
    PageBuilder object it holds: none is sent before the object exists
    (the event never reads [stage:undefined:toggleFullscreen]), and the
    object is never replaced. *)
Theorem toggleFullScreen_names_the_stage (button : bool) (v : string)
    (actions : list Action) :
  let c := after actions (defaults button v) in
  Forall (λ o, is_Some o ∧ o = pageBuilder c) (triggered c).
Proof.
  intros c.
  assert (H : addressed c)
    by (apply after_invariant; [reflexivity | apply addressed_step]).
  unfold addressed in H. destruct (isComponentInitialized c).
  - destruct H as (id & -> & H). eapply Forall_impl; [exact H|].
    intros o ->. split; [now exists id | reflexivity].
  - rewrite H. constructor.
Qed.

Section WithoutButton.

Lemma shown_step id c a : shown id c -> shown id (step c a).
Proof.
  unfold shown. destruct c as [tr tro vis ini lo bu pb wm mo va li rd fd re ef ti].
  simpl. intros (-> & -> & -> & -> & -> & -> & -> & ->).
  destruct a as [k|n k| | |v|fs| |n]; handlers; simpl.
  - repeat split.
  - repeat split.
  - destruct li; simpl; repeat split.
  - destruct li; simpl; [|repeat split]. destruct rd; simpl; repeat split.
  - destruct li; simpl; repeat split.
  - destruct li; simpl; [|repeat split]. destruct fs; simpl; repeat split.
  - repeat split.
  - destruct n; simpl; repeat split.
Qed.

End WithoutButton.

(** X20.  A component configured without the edit button constructs the
    PageBuilder when it is initialized and shows the stage at once.
    Whatever happens afterwards, the stage stays visible, it is never
    animated in or out, no timer is ever started, and the PageBuilder
    object stays the one constructed at the start. *)
Theorem without_button_always_visible (id : nat) (v : string) (actions : list Action) :
  let c := after actions (initialize id (defaults false v)) in
  visiblePageBuilder c = true
  ∧ transition c = false ∧ transitionOut c = false
  ∧ timers c = []
  ∧ pageBuilder c = Some id ∧ constructed c = 1%nat.
Proof.
  intros c.
  assert (H : shown id c).
  { apply after_invariant; [|apply shown_step]. unfold shown. simpl. repeat split. }
  assert (B : built c).
  { apply (after_invariant built); [|apply built_step]. unfold built. simpl.
    repeat split. now exists id. }
  unfold built in B. destruct H as (_ & Hi & Hp & Hv & Ht & Ho & _ & Hm).
  rewrite Hi in B. destruct B as (B & _). auto 10.
Qed.

Section WithButton.

Lemma idle_step v a : isClick a = false -> step (defaults true v) a = defaults true v.
Proof.
  destruct a as [k|n k| | |w|fs| |n]; simpl; try reflexivity; discriminate.
Qed.

Lemma idle_after v actions :
  Forall (λ a, isClick a = false) actions ->
  after actions (defaults true v) = defaults true v.
Proof.
  induction 1 as [|a actions Ha _ IH]; [reflexivity|].
  simpl. now rewrite idle_step.
Qed.

End WithButton.

(** X21.  A component configured with the edit button does nothing until
    the button is clicked: initialization, events and timers leave it in
    its default state, with nothing constructed and nothing shown.  The
    first click then disables the DOM observer on the button's parent,
    constructs the PageBuilder, registers the four listeners and the
    callback on the two deferreds, marks the component loading and
    initialized, and last sends the toggle event of the new stage; the
    stage itself is not shown yet. *)
Theorem with_button_waits_for_click (v : string) (actions : list Action)
    (modalInnerWrap id : nat) :
  Forall (λ a, isClick a = false) actions ->
  let c := after actions (defaults true v) in
  c = defaults true v
  ∧ let c' := step c (ButtonClick modalInnerWrap id) in
    effects c' = [DisableNode; NewPageBuilder; EventsOn "readyAfter"; EventsOn "renderAfter";
                  EventsOn "masterFormatRenderAfter"; EventsOn "fullScreenModeChangeAfter";
                  WhenDone; Async; Trigger (Some id)]
    ∧ pageBuilder c' = Some id
    ∧ isComponentInitialized c' = true ∧ loading c' = true
    ∧ visiblePageBuilder c' = false
    ∧ isWithinModal c' = Nat.eqb modalInnerWrap 1.
Proof.
  intros Hidle c. unfold c. rewrite (idle_after v actions Hidle).
  split; [reflexivity|]. simpl. repeat split.
Qed.

Lemma with_button_waits_for_click_witness :
  let actions := [Initialize 7; ReadyAfter; FullScreenModeChangeAfter true; TimeOut 0] in
  Forall (λ a, isClick a = false) actions
  ∧ after actions (defaults true "") = defaults true ""
  ∧ pageBuilder (step (after actions (defaults true "")) (ButtonClick 1 8)) = Some 8%nat.
Proof.
  intros actions.
  assert (H : Forall (λ a, isClick a = false) actions) by (repeat constructor).
  split; [exact H|].
  pose proof (with_button_waits_for_click "" actions 1 8 H) as (E & _ & P & _).
  split; [exact E | exact P].
Defined.

Section Animation.






End Animation.


